(** * comb: time-stamped UUIDs

    A shallow embedding of the Go package [comb] (the file [main.go], its
    older sibling without the rfc4122 flag, and the helpers of
    [main_test.go]) together with the properties of its fixed-width integer
    codec and of its time-stamped identifier encoder.

    Conventions of the embedding:
    - Go's [int], [int64], [uint64] and [byte] values are integers of [Z]; the
      wrap-around of the arithmetic is written out;
    - a byte slice is a [list Z]; a function that writes through a slice
      returns the new contents, and the caller splices them back into the
      array the slice aliases;
    - a run-time panic is an explicit outcome, next to a normal return;
    - [float64] is the binary64 format of [SpecFloat]. *)

From Stdlib Require Import ZArith Lia SpecFloat.
From stdpp Require Import base tactics option list strings.

Local Open Scope Z_scope.

(** ** The Go run time *)

Module Go.

(** The run-time panics the package can raise. *)
Inductive panic : Type :=
| IndexOutOfRange
| SliceBoundsOutOfRange
| IntegerDivideByZero
| NegativeShiftAmount
| PanicValue (msg : string).

(** A call either returns or panics. *)
Inductive outcome (A : Type) : Type :=
| Return (a : A)
| Panics (p : panic).
Global Arguments Return {A} a.
Global Arguments Panics {A} p.

Global Instance outcome_ret : MRet outcome := fun A a => Return a.
Global Instance outcome_bind : MBind outcome := fun A B f m =>
  match m with
  | Return a => f a
  | Panics p => Panics p
  end.

Definition panics {A} (m : outcome A) : Prop :=
  match m with
  | Panics _ => True
  | Return _ => False
  end.

(** Two's complement wrap-around of [int] (64 bits), [uint64] and [byte]. *)
Definition int64 (z : Z) : Z := (z + 2 ^ 63) mod 2 ^ 64 - 2 ^ 63.
Definition uint64 (z : Z) : Z := z mod 2 ^ 64.
Definition byte (z : Z) : Z := z mod 2 ^ 8.

Definition int64_range (z : Z) : Prop := - 2 ^ 63 <= z < 2 ^ 63.
Definition uint64_range (z : Z) : Prop := 0 <= z < 2 ^ 64.

(** [x / y] on [int64]: truncated division, a zero divisor panics. *)
Definition int64_quo (x y : Z) : outcome Z :=
  if decide (y = 0) then Panics IntegerDivideByZero
  else Return (int64 (Z.quot x y)).

(** [x % y] on [int64]: the remainder of the truncated division, a zero
    divisor panics. *)
Definition int64_rem (x y : Z) : outcome Z :=
  if decide (y = 0) then Panics IntegerDivideByZero
  else Return (int64 (Z.rem x y)).

(** A shift count of a signed type panics when it is negative. *)
Definition shift_count (s : Z) : outcome Z :=
  if decide (s < 0) then Panics NegativeShiftAmount else Return s.

(** [x << s] and [x >> s] on [uint64] (and on [uint], of 64 bits too), for
    a count that is not negative: a count of 64 or more shifts every bit
    out. *)
Definition uint64_shl (x s : Z) : Z :=
  if decide (64 <= s) then 0 else uint64 (Z.shiftl x s).

Definition uint64_shr (x s : Z) : Z :=
  if decide (64 <= s) then 0 else Z.shiftr x s.

Definition len {A} (l : list A) : Z := Z.of_nat (length l).

(** [b[i]] with its bounds check. *)
Definition index (b : list Z) (i : Z) : outcome Z :=
  if decide (0 <= i < len b) then Return (b !!! Z.to_nat i)
  else Panics IndexOutOfRange.

(** [b[i] = x] with its bounds check. *)
Definition store (b : list Z) (i x : Z) : outcome (list Z) :=
  if decide (0 <= i < len b) then Return (<[Z.to_nat i := x]> b)
  else Panics IndexOutOfRange.

(** [a[lo:]] and [a[:hi]] with their bounds checks. *)
Definition slice_from (a : list Z) (lo : Z) : outcome (list Z) :=
  if decide (0 <= lo <= len a) then Return (drop (Z.to_nat lo) a)
  else Panics SliceBoundsOutOfRange.

Definition slice_to (a : list Z) (hi : Z) : outcome (list Z) :=
  if decide (0 <= hi <= len a) then Return (take (Z.to_nat hi) a)
  else Panics SliceBoundsOutOfRange.

(** [for i := 0; i < n; i++ { body }], where the body assigns neither [i]
    nor [n]: the body runs once for each [i] of [0, 1, ..., n-1], and a
    panic of the body ends the loop. *)
Fixpoint for_each {S : Type} (body : Z -> S -> outcome S) (l : list Z) (s : S)
  : outcome S :=
  match l with
  | [] => Return s
  | i :: l' => s' ← body i s; for_each body l' s'
  end.

Definition for_range {S : Type} (n : Z) (body : Z -> S -> outcome S) (s : S)
  : outcome S :=
  for_each body (seqZ 0 n) s.

(** The same loop with the memory in view: the state when the loop ends,
    and the panic when it ends in one.  A body that panics has not assigned:
    the state is then as the iterations before it left it. *)
Fixpoint for_each_mem {S : Type} (body : Z -> S -> outcome S) (l : list Z)
    (s : S) : S * option panic :=
  match l with
  | [] => (s, None)
  | i :: l' =>
      match body i s with
      | Return s' => for_each_mem body l' s'
      | Panics p => (s, Some p)
      end
  end.

End Go.
Export Go.

(** ** binary64 arithmetic *)

Module float64.

Definition prec : Z := 53.
Definition emax : Z := 1024.

Definition t : Type := spec_float.

(** [float64(z)] for an integer [z]: rounded to nearest, ties to even. *)
Definition of_int (z : Z) : t := binary_normalize prec emax z 0 false.

(** [x / y]. *)
Definition div (x y : t) : t := SFdiv prec emax x y.

(** [math.Round]: the nearest integer, halves away from zero; zeros,
    infinities and NaN are returned unchanged. *)
Definition Round (x : t) : t :=
  match x with
  | S754_finite s m e =>
      if decide (0 <= e) then x
      else
        let q := (Z.pos m + 2 ^ (- e - 1)) / 2 ^ (- e) in
        binary_normalize prec emax (cond_Zopp s q) 0 s
  | _ => x
  end.

(** The integer part of a finite number, towards zero. *)
Definition trunc (x : t) : option Z :=
  match x with
  | S754_zero _ => Some 0
  | S754_finite s m e => Some (cond_Zopp s (Z.shiftl (Z.pos m) e))
  | _ => None
  end.

(** [uint64(x)].  The language leaves the result of converting a number
    that [uint64] cannot represent to the implementation:
    [unrepresentable] stands for that choice. *)
Definition to_uint64 (unrepresentable : t -> Z) (x : t) : Z :=
  match trunc x with
  | Some z => if decide (0 <= z < 2 ^ 64) then z
              else uint64 (unrepresentable x)
  | None => uint64 (unrepresentable x)
  end.

(** One implementation of that choice: the saturating conversion, where
    negative numbers and NaN give 0 and numbers too large give the largest
    [uint64]. *)
Definition saturating (x : t) : Z :=
  match x with
  | S754_infinity false | S754_finite false _ _ => 2 ^ 64 - 1
  | _ => 0
  end.

(** [x * y], [x + y] and [x - y]. *)
Definition mul (x y : t) : t := SFmul prec emax x y.
Definition add (x y : t) : t := SFadd prec emax x y.
Definition sub (x y : t) : t := SFsub prec emax x y.

(** [int64(x)], with the latitude of [uint64(x)]. *)
Definition to_int64 (unrepresentable : t -> Z) (x : t) : Z :=
  match trunc x with
  | Some z => if decide (- 2 ^ 63 <= z < 2 ^ 63) then z
              else int64 (unrepresentable x)
  | None => int64 (unrepresentable x)
  end.

(** [x*y + z] as an implementation computes it that rounds the product and
    then the sum; the language also allows a single rounding. *)
Definition unfused (x y z : t) : t := add (mul x y) z.

End float64.

Module math.

(** [math.Pow(2, float64(w))] for an unsigned [w]: the power is exact while
    binary64 holds it, and [+Inf] from [w = 1024] on. *)
Definition Pow2 (w : Z) : float64.t :=
  if decide (w <= 1023) then S754_finite false 4503599627370496 (w - 52)
  else S754_infinity false.

End math.

(** ** Errors and readers *)

Module io.

(** Error values.  [EOF], [ErrUnexpectedEOF] and [ErrShortBuffer] are the
    package variables [io.ReadFull] compares against and returns; [New] is
    [errors.New]; [Wrapped msg e] is what [fmt.Errorf] builds for a format
    with the verb [%w]: a message and the error it wraps. *)
Inductive error : Type :=
| EOF
| ErrUnexpectedEOF
| ErrShortBuffer
| New (msg : string)
| Wrapped (msg : string) (e : error).

Global Instance error_eq_dec : EqDecision error.
Proof. solve_decision. Defined.

(** [err.Error()]. *)
Definition Error (e : error) : string :=
  match e with
  | EOF => "EOF"
  | ErrUnexpectedEOF => "unexpected EOF"
  | ErrShortBuffer => "short buffer"
  | New msg => msg
  | Wrapped msg _ => msg
  end.

(** [errors.Unwrap(err)]. *)
Definition Unwrap (e : error) : option error :=
  match e with
  | Wrapped _ e' => Some e'
  | _ => None
  end.

(** [fmt.Errorf("%s: %w", s, err)]. *)
Definition Errorf_s_w (s : string) (err : error) : error :=
  Wrapped (s +:+ ": " +:+ Error err) err.

(** An [io.Reader] is modelled by what its successive [Read] calls
    deliver: each call consumes one entry, the bytes on offer (of which the
    call copies as many as fit the destination) and the error returned with
    them.  An exhausted reader answers [0, EOF]. *)
Definition Reader : Type := list (list Z * option error).

(** The loop of [io.ReadAtLeast]:
    [for n < min && err == nil { nn, err = r.Read(buf[n:]); n += nn }]. *)
Fixpoint ReadAtLeast_loop (r : Reader) (buf : list Z) (min n : nat)
  : list Z * nat * option error :=
  if decide (n < min)%nat then
    match r with
    | [] => (buf, n, Some EOF)
    | (data, err) :: r' =>
        let chunk := take (length buf - n) data in
        let buf' := take n buf ++ chunk ++ drop (n + length chunk) buf in
        let n' := (n + length chunk)%nat in
        match err with
        | Some e => (buf', n', Some e)
        | None => ReadAtLeast_loop r' buf' min n'
        end
    end
  else (buf, n, None).

(** [io.ReadAtLeast(r, buf, min)]: the new contents of [buf], the number
    of bytes read and the error. *)
Definition ReadAtLeast (r : Reader) (buf : list Z) (min : nat)
  : list Z * nat * option error :=
  if decide (length buf < min)%nat then (buf, 0%nat, Some ErrShortBuffer)
  else
    let '(buf', n, err) := ReadAtLeast_loop r buf min 0 in
    if decide (min <= n)%nat then (buf', n, None)
    else if bool_decide (0 < n)%nat && bool_decide (err = Some EOF)
         then (buf', n, Some ErrUnexpectedEOF)
         else (buf', n, err).

(** [io.ReadFull(r, buf)]. *)
Definition ReadFull (r : Reader) (buf : list Z)
  : list Z * nat * option error :=
  ReadAtLeast r buf (length buf).

End io.

Module uuid.

(** [uuid.UUID] is [[16]byte], here a list of bytes that [wf] constrains to
    16 elements; [uuid.Nil] is its zero value. *)
Abbreviation UUID := (list Z).
Definition Nil : UUID := replicate 16 0.
Definition wf (id : UUID) : Prop := length id = 16%nat.

End uuid.

Module time.

(** A [time.Duration] counts nanoseconds. *)
Definition Nanosecond : Z := 1.
Definition Microsecond : Z := 1000 * Nanosecond.
Definition Millisecond : Z := 1000 * Microsecond.
Definition Second : Z := 1000 * Millisecond.

End time.

(** ** The package, file [main.go] *)

Module comb.

(** [b[i] = byte(v >> (1 << (n - 1 - i)))].  The count [n - 1 - i] of the
    inner shift is an [int]; its constant [1] is typed by the compilers as
    the count of the outer shift, a [uint].  (Read as an [int] it has the
    same value up to a count of 62.) *)
Definition uint64ToBytes_body (n v : Z) (i : Z) (b : list Z)
  : outcome (list Z) :=
  k ← shift_count (int64 (int64 (n - 1) - i));
  store b i (byte (uint64_shr v (uint64_shl 1 k))).

Definition uint64ToBytes (b : list Z) (n : Z) (v : Z) : outcome (list Z) :=
  _ ← index b (int64 (n - 1));
  for_range n (uint64ToBytes_body n v) b.

(** [uint64ToBytes] with the caller's slice in view: the bytes of [b] when
    the call ends, and the panic when it ends in one. *)
Definition uint64ToBytes_mem (b : list Z) (n : Z) (v : Z)
  : list Z * option panic :=
  match index b (int64 (n - 1)) with
  | Panics p => (b, Some p)
  | Return _ => for_each_mem (uint64ToBytes_body n v) (seqZ 0 n) b
  end.

(** [val |= uint64(b[n-1-i]) << (i * lenInt)] *)
Definition bytesToUint64_body (lenInt : Z) (b : list Z) (n : Z) (i : Z) (val : Z)
  : outcome Z :=
  x ← index b (int64 (int64 (n - 1) - i));
  s ← shift_count (int64 (i * lenInt));
  Return (Z.lor val (uint64_shl (uint64 x) s)).

Definition bytesToUint64 (b : list Z) (n : Z) : outcome Z :=
  let lenInt := 8 in
  _ ← index b (int64 (n - 1));
  if decide (len b > lenInt)
  then Panics (PanicValue "byte slice is larger than uint64")
  else for_range n (bytesToUint64_body lenInt b n) 0.

Definition ReadCustomTimeStamp (id : uuid.UUID) (nBytes : Z) : outcome Z :=
  b ← slice_from id (int64 (len id - nBytes));
  bytesToUint64 b nBytes.

Definition ReadTimeStamp (id : uuid.UUID) : outcome Z :=
  ReadCustomTimeStamp id 6.

(** [id[6] = (id[6] & 0x0f) | 0x60; id[8] = (id[8] & 0x3f) | 0xe0] *)
Definition setVersionVariant (id : uuid.UUID) : uuid.UUID :=
  let id := <[6%nat := Z.lor (Z.land (id !!! 6%nat) 0x0f) 0x60]> id in
  <[8%nat := Z.lor (Z.land (id !!! 8%nat) 0x3f) 0xe0]> id.

Definition fname : string := "CustomTimeStampedUUID".

Section Conversion.

(** The implementation's choice for the conversions [uint64] cannot
    represent. *)
Variable unrepresentable : float64.t -> Z.

(** [uint64(math.Round(float64(t) / float64(res)))]: the count the time
    stamp is made of, before it is masked. *)
Definition storedUnits (t res : Z) : Z :=
  float64.to_uint64 unrepresentable
    (float64.Round (float64.div (float64.of_int t) (float64.of_int res))).

(** [uint64(1<<uint64(nBytes*8) - 1)]: the constant [1] is a [uint64]. *)
Definition timeMask (nBytes : Z) : Z :=
  uint64 (uint64_shl 1 (uint64 (int64 (nBytes * 8))) - 1).

Definition SetTimeStamp (id : uuid.UUID) (nBytes : Z) (t : Z) (res : Z)
  : outcome (uuid.UUID * option io.error) :=
  res ← int64_quo (Z.quot time.Second 10) res;
  if decide (nBytes > len id)
  then Return (id, Some (io.New "to many bytes to format"))
  else
    let mask := timeMask nBytes in
    let timeBytes := Z.land (storedUnits t res) mask in
    let lo := int64 (len id - nBytes) in
    b ← slice_from id lo;
    b ← uint64ToBytes b nBytes timeBytes;
    Return (take (Z.to_nat lo) id ++ b, None).

(** The closure [fail] returns the variable [id] as it is when [fail] is
    called; [io.ReadFull] writes through the slice [id[:len(id)-nBytes]]
    into that same variable. *)
Definition CustomTimeStampedUUID
  (r : io.Reader) (nBytes : Z) (t : Z) (res : Z) (rfc4122 : bool)
  : outcome (uuid.UUID * option io.error) :=
  let id := uuid.Nil in
  let fail (id : uuid.UUID) (err : io.error) :=
    Return (id, Some (io.Errorf_s_w fname err)) in
  '(id, err) ← SetTimeStamp id nBytes t res;
  match err with
  | Some e => fail id e
  | None =>
      let hi := int64 (len id - nBytes) in
      b ← slice_to id hi;
      let '(b, _, err) := io.ReadFull r b in
      let id := b ++ drop (Z.to_nat hi) id in
      match err with
      | Some e => fail id e
      | None =>
          let id := if rfc4122 then setVersionVariant id else id in
          Return (id, None)
      end
  end.

(** [NewTimeStampedUUID], given what [uuid.GetTime] returned and the
    behaviour of [rand.Reader]. *)
Definition NewTimeStampedUUID (now : Z) (err : option io.error) (r : io.Reader)
  : outcome (uuid.UUID * option io.error) :=
  match err with
  | Some e => Return (uuid.Nil, Some (io.Errorf_s_w "NewTimeStampedUUID" e))
  | None => CustomTimeStampedUUID r 6 now (Z.quot time.Millisecond 10) true
  end.

End Conversion.

Section Report.

(** The implementation's choices in [timeRange]: the [int64] of a number
    that [int64] cannot represent, and the rounding of [x*y + z]. *)
Variable unrepresentable : float64.t -> Z.
Variable mulAdd : float64.t -> float64.t -> float64.t -> float64.t.

(** The constant [365.24219] as a [float64]. *)
Definition avgYear : float64.t := S754_finite false 6425408557749937 (-44).
Definition secPerDay : Z := 88400.

(** [timeRange] prints three values: its result here is the three
    arguments it hands to [fmt.Printf] after the format. *)
Definition timeRange (wordSize : Z) (timeResolution : Z)
  : outcome (Z * Z * float64.t) :=
  partsPerSecond ← int64_quo time.Second timeResolution;
  let normalised :=
    float64.div (float64.of_int 1) (float64.of_int partsPerSecond) in
  let units := float64.to_int64 unrepresentable (math.Pow2 wordSize) in
  seconds ← int64_quo units partsPerSecond;
  unitsRmn ← int64_rem units partsPerSecond;
  days ← int64_quo seconds secPerDay;
  secondsRmn ← int64_rem seconds secPerDay;
  let years :=
    float64.to_int64 unrepresentable
      (float64.div (float64.of_int days) avgYear) in
  let daysRemainder :=
    float64.sub (float64.div (float64.of_int days) avgYear)
                (float64.of_int years) in
  let daysRmn :=
    float64.to_int64 unrepresentable (float64.mul daysRemainder avgYear) in
  Return (years, daysRmn,
          mulAdd normalised (float64.of_int unitsRmn)
                 (float64.of_int secondsRmn)).

End Report.

End comb.

(** ** The package, older file without the rfc4122 flag

    The second source file declares the same functions again; the ones the
    encoder is made of are embedded from its text. *)

Module part_000.

Definition uint64ToBytes_body (n v : Z) (i : Z) (b : list Z)
  : outcome (list Z) :=
  k ← shift_count (int64 (int64 (n - 1) - i));
  store b i (byte (uint64_shr v (uint64_shl 1 k))).

Definition uint64ToBytes (b : list Z) (n : Z) (v : Z) : outcome (list Z) :=
  _ ← index b (int64 (n - 1));
  for_range n (uint64ToBytes_body n v) b.

Definition fname : string := "CustomTimeStampedUUID".

Section Conversion.

Variable unrepresentable : float64.t -> Z.

Definition SetTimeStamp (id : uuid.UUID) (nBytes : Z) (t : Z) (res : Z)
  : outcome (uuid.UUID * option io.error) :=
  res ← int64_quo (Z.quot time.Second 10) res;
  if decide (nBytes > len id)
  then Return (id, Some (io.New "to many bytes to format"))
  else
    let mask := uint64 (uint64_shl 1 (uint64 (int64 (nBytes * 8))) - 1) in
    let timeBytes :=
      Z.land
        (float64.to_uint64 unrepresentable
           (float64.Round
              (float64.div (float64.of_int t) (float64.of_int res))))
        mask in
    let lo := int64 (len id - nBytes) in
    b ← slice_from id lo;
    b ← uint64ToBytes b nBytes timeBytes;
    Return (take (Z.to_nat lo) id ++ b, None).

Definition CustomTimeStampedUUID
  (r : io.Reader) (nBytes : Z) (t : Z) (res : Z)
  : outcome (uuid.UUID * option io.error) :=
  let id := uuid.Nil in
  let fail (id : uuid.UUID) (err : io.error) :=
    Return (id, Some (io.Errorf_s_w fname err)) in
  '(id, err) ← SetTimeStamp id nBytes t res;
  match err with
  | Some e => fail id e
  | None =>
      let hi := int64 (len id - nBytes) in
      b ← slice_to id hi;
      let '(b, _, err) := io.ReadFull r b in
      let id := b ++ drop (Z.to_nat hi) id in
      match err with
      | Some e => fail id e
      | None => Return (id, None)
      end
  end.

(** [NewTimeStampedUUID] of the older file, given what [uuid.GetTime]
    returned and the behaviour of [rand.Reader]. *)
Definition NewTimeStampedUUID (now : Z) (err : option io.error) (r : io.Reader)
  : outcome (uuid.UUID * option io.error) :=
  match err with
  | Some e => Return (uuid.Nil, Some (io.Errorf_s_w "NewTimeStampedUUID" e))
  | None => CustomTimeStampedUUID r 6 now (Z.quot time.Millisecond 10)
  end.

End Conversion.

End part_000.

(** ** The reference helpers of [main_test.go] *)

Module comb_test.

Definition putBytesSafe (b : list Z) (n : Z) (v : Z) : outcome (list Z) :=
  _ ← index b 5;
  b ← store b 0 (byte (uint64_shr v 40));
  b ← store b 1 (byte (uint64_shr v 32));
  b ← store b 2 (byte (uint64_shr v 24));
  b ← store b 3 (byte (uint64_shr v 16));
  b ← store b 4 (byte (uint64_shr v 8));
  store b 5 (byte v).

Definition fillUint64Safe (b : list Z) : outcome Z :=
  _ ← index b 7;
  Return
    (Z.lor (Z.lor (Z.lor (Z.lor (Z.lor (Z.lor (Z.lor
       (uint64 (b !!! 7%nat))
       (uint64_shl (uint64 (b !!! 6%nat)) 8))
       (uint64_shl (uint64 (b !!! 5%nat)) 16))
       (uint64_shl (uint64 (b !!! 4%nat)) 24))
       (uint64_shl (uint64 (b !!! 3%nat)) 32))
       (uint64_shl (uint64 (b !!! 2%nat)) 40))
       (uint64_shl (uint64 (b !!! 1%nat)) 48))
       (uint64_shl (uint64 (b !!! 0%nat)) 56)).

End comb_test.

(** ** What the specification says of the codec and of the time stamp *)

Module spec.

(** The big-endian bytes of [v] at width [n], most significant first: byte
    [i] is [byte(v >> (8*(n-1-i)))]. *)
Definition bigEndian (n v : Z) : list Z :=
  (fun i => byte (Z.shiftr v (8 * (n - 1 - i)))) <$> seqZ 0 n.

(** The big-endian value of a list of bytes. *)
Definition fromBigEndian (b : list Z) : Z :=
  foldl (fun acc x => 256 * acc + x) 0 b.

(** [a / b] rounded to the nearest integer, halves away from zero, for a
    positive [b]. *)
Definition roundDiv (a b : Z) : Z :=
  Z.sgn a * ((2 * Z.abs a + b) / (2 * b)).

(** The raw 100-nanosecond ticks in one stored unit of resolution [r]. *)
Definition scale (r : Z) : Z := r / (100 * time.Nanosecond).

(** The count of [r]-sized intervals in [t] ticks, rounded. *)
Definition storedUnits (t r : Z) : Z := roundDiv t (scale r).

End spec.

(** ** Notions the statements below are phrased with *)

(** What [uint64ToBytes] writes at width [n] for the value [v]: byte [i] is
    [byte(v >> 2^(n-1-i))]. *)
Definition shifted (n v : Z) : list Z :=
  (fun i => byte (uint64_shr v (2 ^ (n - 1 - i)))) <$> seqZ 0 n.

(** The divisor [SetTimeStamp] makes of a resolution:
    [time.Second / 10 / res]. *)
Definition ticksPerUnit (res : Z) : Z := Z.quot 100000000 res.

(** The second step of [CustomTimeStampedUUID] on its own: fill the leading
    [len(id) - nBytes] bytes of [id] from the reader. *)
Definition fillRandom (r : io.Reader) (id : uuid.UUID) (nBytes : Z)
  : outcome (uuid.UUID * option io.error) :=
  let hi := int64 (len id - nBytes) in
  b ← slice_to id hi;
  let '(b, _, err) := io.ReadFull r b in
  Return (b ++ drop (Z.to_nat hi) id, err).

(** The end of [CustomTimeStampedUUID]: wrap the error, or set the marker
    bits when asked to. *)
Definition finish (rfc4122 : bool) (res : uuid.UUID * option io.error)
  : outcome (uuid.UUID * option io.error) :=
  match res with
  | (id, Some e) => Return (id, Some (io.Errorf_s_w comb.fname e))
  | (id, None) =>
      Return (if rfc4122 then comb.setVersionVariant id else id, None)
  end.

(** A byte value. *)
Definition is_byte (x : Z) : Prop := 0 <= x < 256.

(** A construction fails when it panics or returns an error. *)
Definition failed (m : outcome (uuid.UUID * option io.error)) : Prop :=
  match m with
  | Panics _ => True
  | Return (_, Some _) => True
  | Return (_, None) => False
  end.

(** The format marker as the specification words it, on one call: version
    nibble 6 in byte 6, top two bits of byte 8 set, and every other bit of
    the two bytes as it is without the marker. *)
Definition marker_touches_two_variant_bits
    (u : float64.t -> Z) (r : io.Reader) (nBytes t res : Z) : Prop :=
  forall id pre : uuid.UUID,
    comb.CustomTimeStampedUUID u r nBytes t res true = Return (id, None) ->
    comb.CustomTimeStampedUUID u r nBytes t res false = Return (pre, None) ->
    Z.shiftr (id !!! 6%nat) 4 = 6
    /\ Z.shiftr (id !!! 8%nat) 6 = 3
    /\ Z.land (id !!! 6%nat) 0x0f = Z.land (pre !!! 6%nat) 0x0f
    /\ Z.land (id !!! 8%nat) 0x3f = Z.land (pre !!! 8%nat) 0x3f.

(** The mantissa [m] and exponent [e] of a binary64 number within half a
    unit in the last place of [t / 1000]: the error [1000*m - t*2^(-e)]
    is at most 500, or 250 where a carry has halved the mantissa. *)
Definition near (t : Z) (m : positive) (e : Z) : Prop :=
  e < 0
  /\ exists k, 0 <= k <= 1 /\ 9 <= - e + k
       /\ 2 ^ k * Z.abs (1000 * Z.pos m - t * 2 ^ (- e)) <= 500.

(** The explicit panic of [bytesToUint64]. *)
Definition tooLarge : panic := PanicValue "byte slice is larger than uint64".

(** A reader that never fails: its successive [Read] calls deliver the
    chunks [ds], and [0, EOF] after the last. *)
Definition chunks (ds : list (list Z)) : io.Reader :=
  (fun d => (d, None)) <$> ds.

(** The bytes [SetTimeStamp] writes at width [n]: the encoder's bytes of the
    masked count. *)
Definition stamp (u : float64.t -> Z) (n t res : Z) : list Z :=
  shifted n (Z.land (comb.storedUnits u t (ticksPerUnit res))
                    (comb.timeMask n)).

(** The marker, when asked for. *)
Definition mark (rfc4122 : bool) (id : uuid.UUID) : uuid.UUID :=
  if rfc4122 then comb.setVersionVariant id else id.

(** The bits of a value the encoder can store: bits 1 to 23 and 32 to 39. *)
Definition storedBits : Z := 0xff00fffffe.

(** ** Machine arithmetic *)

Lemma int64_id z : int64_range z -> int64 z = z.
Proof.
  unfold int64_range, int64. intros H.
  rewrite Z.mod_small; lia.
Qed.

(** Above its range a sum wraps into the negative numbers. *)
Lemma int64_wraps_negative z : 2 ^ 63 <= z < 2 ^ 64 -> int64 z < 0.
Proof.
  unfold int64. intros H.
  replace (z + 2 ^ 63) with ((z - 2 ^ 63) + 1 * 2 ^ 64) by lia.
  rewrite Z.mod_add by lia. rewrite Z.mod_small; lia.
Qed.

Lemma shift_count_ok s : 0 <= s -> shift_count s = Return s.
Proof. intros Hs. unfold shift_count. case_decide; [lia|done]. Qed.

Lemma uint64_shl_1 k : 0 <= k <= 63 -> uint64_shl 1 k = 2 ^ k.
Proof.
  intros Hk. unfold uint64_shl, uint64. case_decide; [lia|].
  rewrite Z.shiftl_1_l. apply Z.mod_small. split.
  - apply Z.pow_nonneg. lia.
  - apply Z.pow_lt_mono_r; lia.
Qed.

Lemma ticksPerUnit_range res : int64_range (ticksPerUnit res).
Proof.
  unfold ticksPerUnit, int64_range.
  destruct (decide (res = 0)) as [->|Hres]; [by vm_compute|].
  assert (Z.abs (100000000 ÷ res) <= 100000000); [|lia].
  rewrite <- Z.quot_abs by done.
  rewrite Z.quot_div_nonneg by lia.
  apply Z.div_le_upper_bound; lia.
Qed.

Lemma int64_quo_scale res :
  res <> 0 -> int64_quo (Z.quot time.Second 10) res = Return (ticksPerUnit res).
Proof.
  intros Hres. unfold int64_quo. case_decide; [done|].
  f_equal. apply int64_id, ticksPerUnit_range.
Qed.

Lemma to_uint64_range u x : uint64_range (float64.to_uint64 u x).
Proof.
  unfold float64.to_uint64, uint64_range, uint64.
  destruct (float64.trunc x) as [z|]; [case_decide; [done|]|];
    apply Z.mod_pos_bound; lia.
Qed.

Lemma storedUnits_range u t res : uint64_range (comb.storedUnits u t res).
Proof. apply to_uint64_range. Qed.

(** A property of every width of a range can be checked width by width. *)
Lemma width_cases (P : Z -> Prop) (lo k n : Z) :
  lo <= n < lo + k -> Forall P (seqZ lo k) -> P n.
Proof.
  intros Hn HP. rewrite Forall_forall in HP. apply HP, elem_of_seqZ. lia.
Qed.

(** The mask has [8*nBytes] low bits set, and all 64 from width 8 on. *)
Lemma timeMask_ones n :
  1 <= n <= 16 -> comb.timeMask n = Z.ones (Z.min (8 * n) 64).
Proof.
  intros Hn. pattern n. apply (width_cases _ 1 16); [lia|].
  cbv [seqZ]. simpl. repeat constructor.
Qed.

Lemma land_timeMask x n :
  uint64_range x -> 1 <= n <= 8 ->
  Z.land x (comb.timeMask n) = x mod 2 ^ (8 * n).
Proof.
  intros Hx Hn. rewrite timeMask_ones by lia.
  rewrite Z.min_l by lia. apply Z.land_ones. lia.
Qed.

(** ** Loops *)

(** A loop whose body stores [f i] at index [i]. *)
Lemma for_each_store (f : Z -> Z) (body : Z -> list Z -> outcome (list Z))
    (hi : Z) :
  (forall i b, 0 <= i < hi -> i < len b ->
     body i b = Return (<[Z.to_nat i := f i]> b)) ->
  forall (k : nat) (pre rest : list Z),
    (k <= length rest)%nat -> len pre + Z.of_nat k <= hi ->
    for_each body (seqZ (len pre) (Z.of_nat k)) (pre ++ rest)
    = Return (pre ++ (f <$> seqZ (len pre) (Z.of_nat k)) ++ drop k rest).
Proof.
  intros Hbody k. induction k as [|k IH]; intros pre rest Hk Hhi.
  - simpl. by rewrite drop_0.
  - destruct rest as [|x rest]; [simpl in Hk; lia|].
    rewrite seqZ_cons by lia. cbn [for_each fmap list_fmap].
    rewrite Hbody; cycle 1.
    { unfold len in *. lia. }
    { unfold len. rewrite length_app. simpl. lia. }
    cbn [mbind outcome_bind].
    replace (Z.to_nat (len pre)) with (length pre + 0)%nat
      by (unfold len; lia).
    rewrite insert_app_r. cbn [insert list_insert].
    replace (Z.pred (Z.of_nat (S k))) with (Z.of_nat k) by lia.
    replace (Z.succ (len pre)) with (len (pre ++ [f (len pre)])).
    2:{ unfold len. rewrite length_app. simpl. lia. }
    rewrite (cons_middle (f (len pre)) pre rest), app_assoc.
    rewrite IH.
    + rewrite <- !app_assoc. simpl. done.
    + simpl in Hk. lia.
    + unfold len in *. rewrite length_app. simpl. lia.
Qed.

(** A loop whose body never panics is a fold. *)
Lemma for_each_fold {S : Type} (g : Z -> S -> S) (body : Z -> S -> outcome S) :
  forall (l : list Z) (s : S),
    (forall i s', i ∈ l -> body i s' = Return (g i s')) ->
    for_each body l s = Return (foldl (fun acc i => g i acc) s l).
Proof.
  induction l as [|i l IH]; intros s Hbody; [done|].
  cbn [for_each foldl]. rewrite Hbody by (apply elem_of_cons; by left).
  cbn [mbind outcome_bind]. apply IH. intros j s' Hj.
  apply Hbody, elem_of_cons. by right.
Qed.

(** A property every iteration keeps holds when the loop returns. *)
Lemma for_each_invariant {S : Type} (P : S -> Prop)
    (body : Z -> S -> outcome S) :
  (forall i s s', P s -> body i s = Return s' -> P s') ->
  forall (l : list Z) (s s' : S),
    P s -> for_each body l s = Return s' -> P s'.
Proof.
  intros Hbody. induction l as [|i l IH]; intros s s' Hs; cbn [for_each].
  - by intros [= <-].
  - destruct (body i s) as [s1|p] eqn:Hb; [|done].
    cbn [mbind outcome_bind]. apply IH. by eapply Hbody.
Qed.

(** ** The codec *)

Lemma shifted_length n v : length (shifted n v) = Z.to_nat n.
Proof. unfold shifted. by rewrite length_fmap, length_seqZ. Qed.

Lemma uint64ToBytes_body_ok n v i b :
  1 <= n <= 63 -> 0 <= i < n -> i < len b ->
  comb.uint64ToBytes_body n v i b
  = Return (<[Z.to_nat i := byte (uint64_shr v (2 ^ (n - 1 - i)))]> b).
Proof.
  intros Hn Hi Hb. unfold comb.uint64ToBytes_body.
  rewrite (int64_id (n - 1)) by (unfold int64_range; lia).
  rewrite (int64_id (n - 1 - i)) by (unfold int64_range; lia).
  rewrite shift_count_ok by lia. cbn [mbind outcome_bind].
  rewrite uint64_shl_1 by lia.
  unfold store. case_decide; [done|lia].
Qed.

(** What the encoder does: it returns, having written [shifted n v] over the
    first [n] bytes of the slice. *)
Lemma uint64ToBytes_spec b n v :
  1 <= n <= 63 -> n <= len b ->
  comb.uint64ToBytes b n v = Return (shifted n v ++ drop (Z.to_nat n) b).
Proof.
  intros Hn Hb. unfold comb.uint64ToBytes, index.
  rewrite (int64_id (n - 1)) by (unfold int64_range; lia).
  case_decide; [|lia]. cbn [mbind outcome_bind]. unfold for_range.
  pose proof (for_each_store (fun i => byte (uint64_shr v (2 ^ (n - 1 - i))))
                (comb.uint64ToBytes_body n v) n) as H1.
  specialize (H1 (fun i b Hi Hl => uint64ToBytes_body_ok n v i b Hn Hi Hl)
                (Z.to_nat n) [] b).
  change (len (@nil Z)) with 0 in H1. simpl in H1.
  rewrite Z2Nat.id in H1 by lia.
  apply H1; unfold len in *; lia.
Qed.

(** The encoder never changes the length of the slice. *)
Lemma uint64ToBytes_length b n v b' :
  comb.uint64ToBytes b n v = Return b' -> length b' = length b.
Proof.
  unfold comb.uint64ToBytes. destruct (index b _); [|done].
  cbn [mbind outcome_bind]. unfold for_range.
  apply (for_each_invariant (fun s => length s = length b)); [|done].
  intros i s s' Hs. unfold comb.uint64ToBytes_body.
  destruct (shift_count _) as [k|]; [|done]. cbn [mbind outcome_bind].
  unfold store. case_decide; [|done]. intros [= <-].
  by rewrite length_insert.
Qed.

(** What the decoder does on a slice of at most 8 bytes. *)
Lemma bytesToUint64_ok b n :
  1 <= n <= len b -> len b <= 8 ->
  comb.bytesToUint64 b n
  = Return (foldl (fun val i =>
                     Z.lor val (uint64_shl (uint64 (b !!! Z.to_nat (n - 1 - i)))
                                           (i * 8)))
                  0 (seqZ 0 n)).
Proof.
  intros Hn Hb. unfold comb.bytesToUint64, index.
  rewrite (int64_id (n - 1)) by (unfold int64_range; lia).
  destruct (decide (0 <= n - 1 < len b)); [|lia]. cbn [mbind outcome_bind].
  destruct (decide (len b > 8)); [lia|]. unfold for_range.
  apply (for_each_fold
           (fun i val =>
              Z.lor val (uint64_shl (uint64 (b !!! Z.to_nat (n - 1 - i)))
                                    (i * 8)))).
  intros i val Hi. apply elem_of_seqZ in Hi.
  unfold comb.bytesToUint64_body, index.
  rewrite (int64_id (n - 1)) by (unfold int64_range; lia).
  rewrite (int64_id (n - 1 - i)) by (unfold int64_range; lia).
  case_decide; [|lia]. cbn [mbind outcome_bind].
  rewrite (int64_id (i * 8)) by (unfold int64_range; lia).
  by rewrite shift_count_ok by lia.
Qed.

(** *** The decoder *)

Lemma fromBigEndian_snoc l x :
  spec.fromBigEndian (l ++ [x]) = 256 * spec.fromBigEndian l + x.
Proof. unfold spec.fromBigEndian. by rewrite foldl_app. Qed.

Lemma fromBigEndian_acc l : forall acc,
  foldl (fun a x => 256 * a + x) acc l
  = acc * 256 ^ len l + spec.fromBigEndian l.
Proof.
  unfold spec.fromBigEndian.
  induction l as [|x l IH]; intros acc.
  - unfold len. simpl. lia.
  - cbn [foldl]. rewrite (IH (256 * acc + x)), (IH (256 * 0 + x)).
    unfold len. cbn [length]. rewrite Nat2Z.inj_succ, Z.pow_succ_r by lia.
    lia.
Qed.

Lemma fromBigEndian_cons x l :
  spec.fromBigEndian (x :: l) = x * 256 ^ len l + spec.fromBigEndian l.
Proof.
  unfold spec.fromBigEndian at 1. cbn [foldl].
  rewrite fromBigEndian_acc. lia.
Qed.

Lemma fromBigEndian_bound l :
  Forall is_byte l -> 0 <= spec.fromBigEndian l < 256 ^ len l.
Proof.
  induction 1 as [|x l Hx Hl IH].
  - by vm_compute.
  - rewrite fromBigEndian_cons. unfold len in *. cbn [length].
    rewrite Nat2Z.inj_succ, Z.pow_succ_r by lia. unfold is_byte in Hx. nia.
Qed.

(** Bits that do not overlap add up. *)
Lemma lor_mul_pow2_add a x k :
  0 <= k -> 0 <= a < 2 ^ k -> Z.lor a (x * 2 ^ k) = a + x * 2 ^ k.
Proof.
  intros Hk Ha.
  assert (Z.land a (x * 2 ^ k) = 0) as Hdisj.
  { apply Z.bits_inj'. intros i Hi. rewrite Z.land_spec, Z.bits_0.
    destruct (decide (i < k)).
    - rewrite Z.mul_pow2_bits_low by lia. apply andb_false_r.
    - rewrite <- (Z.mod_small a (2 ^ k)) by done.
      rewrite Z.mod_pow2_bits_high by lia. done. }
  rewrite <- Z.lxor_lor by done. symmetry. by apply Z.add_nocarry_lxor.
Qed.

(** The loop of the decoder, after [j] of its [N] iterations, has read the
    last [j] of the first [N] bytes. *)
Lemma decode_loop (b : list Z) (N : nat) :
  Forall is_byte b -> (N <= length b)%nat -> (N <= 8)%nat ->
  forall j : nat, (j <= N)%nat ->
    foldl (fun val i =>
             Z.lor val (uint64_shl
                          (uint64 (b !!! Z.to_nat (Z.of_nat N - 1 - i)))
                          (i * 8)))
          0 (seqZ 0 (Z.of_nat j))
    = spec.fromBigEndian (drop (N - j) (take N b)).
Proof.
  intros Hb HN H8. induction j as [|j IH]; intros Hj.
  - cbn [Z.of_nat seqZ]. rewrite Nat.sub_0_r, drop_ge; [done|].
    rewrite length_take. lia.
  - rewrite seqZ_S, foldl_app, IH by lia. cbn [foldl].
    rewrite Z.add_0_l.
    replace (Z.to_nat (Z.of_nat N - 1 - Z.of_nat j)) with (N - S j)%nat by lia.
    set (x := b !!! (N - S j)%nat).
    assert (is_byte x) as Hx.
    { apply Forall_lookup_total_1; [done|lia]. }
    assert (take N b !! (N - S j)%nat = Some x) as Hlook.
    { rewrite lookup_take_lt by lia.
      apply list_lookup_lookup_total_lt. lia. }
    rewrite (drop_S _ _ _ Hlook).
    replace (S (N - S j)) with (N - j)%nat by lia.
    set (rest := drop (N - j) (take N b)).
    assert (len rest = Z.of_nat j) as Hrest.
    { unfold len, rest. rewrite length_drop, length_take. lia. }
    assert (Forall is_byte rest) as Hbytes.
    { unfold rest. by apply Forall_drop, Forall_take. }
    pose proof (fromBigEndian_bound rest Hbytes) as Hbound.
    rewrite Hrest in Hbound.
    assert (256 ^ Z.of_nat j = 2 ^ (Z.of_nat j * 8)) as Hpow.
    { rewrite Z.mul_comm, Z.pow_mul_r by lia. done. }
    rewrite fromBigEndian_cons, Hrest, Hpow. rewrite Hpow in Hbound.
    unfold is_byte in Hx. unfold uint64_shl, uint64.
    case_decide; [lia|].
    assert (2 ^ (Z.of_nat j * 8) * 2 ^ 8 <= 2 ^ 64) as Hle.
    { rewrite <- Z.pow_add_r by lia. apply Z.pow_le_mono_r; lia. }
    assert (0 < 2 ^ (Z.of_nat j * 8)) as Hpos by (apply Z.pow_pos_nonneg; lia).
    rewrite (Z.mod_small x) by lia.
    rewrite Z.shiftl_mul_pow2 by lia.
    rewrite Z.mod_small by nia.
    rewrite lor_mul_pow2_add by lia. lia.
Qed.

(** The decoder is big-endian. *)
Lemma bytesToUint64_bigEndian b n :
  1 <= n <= len b -> len b <= 8 -> Forall is_byte b ->
  comb.bytesToUint64 b n = Return (spec.fromBigEndian (take (Z.to_nat n) b)).
Proof.
  intros Hn Hb Hbytes. rewrite bytesToUint64_ok by done. f_equal.
  pose proof (decode_loop b (Z.to_nat n) Hbytes) as H.
  specialize (H ltac:(unfold len in *; lia) ltac:(unfold len in *; lia)
                (Z.to_nat n) ltac:(lia)).
  rewrite !Z2Nat.id in H by lia.
  by rewrite H, Nat.sub_diag, drop_0.
Qed.

Lemma bigEndian_succ (n : nat) v :
  spec.bigEndian (Z.of_nat (S n)) v
  = spec.bigEndian (Z.of_nat n) (Z.shiftr v 8) ++ [byte v].
Proof.
  unfold spec.bigEndian. rewrite seqZ_S, fmap_app. cbn [fmap list_fmap].
  f_equal.
  - apply list_fmap_ext. intros i x Hx.
    apply lookup_seqZ in Hx as [-> Hi].
    rewrite Z.shiftr_shiftr by lia. do 2 f_equal. lia.
  - do 3 f_equal. replace (8 * _) with 0 by lia. apply Z.shiftr_0_r.
Qed.

Lemma fromBigEndian_bigEndian (n : nat) : forall v,
  spec.fromBigEndian (spec.bigEndian (Z.of_nat n) v) = v mod 2 ^ (8 * Z.of_nat n).
Proof.
  induction n as [|n IH]; intros v.
  - cbn. by rewrite Z.mod_1_r.
  - rewrite bigEndian_succ, fromBigEndian_snoc, IH. unfold byte.
    rewrite Z.shiftr_div_pow2 by lia.
    replace (8 * Z.of_nat (S n)) with (8 + 8 * Z.of_nat n) by lia.
    rewrite Z.pow_add_r by lia.
    rewrite (Z.rem_mul_r v (2 ^ 8) (2 ^ (8 * Z.of_nat n))); [lia|lia|].
    apply Z.pow_pos_nonneg; lia.
Qed.

Lemma bigEndian_bytes n v : Forall is_byte (spec.bigEndian n v).
Proof.
  unfold spec.bigEndian. apply Forall_fmap, Forall_forall. intros i _.
  unfold is_byte, byte. simpl. apply Z.mod_pos_bound. lia.
Qed.

(** The decoder inverts the big-endian encoding of the specification: the
    round trip fails on the side of the encoder. *)
Lemma bytesToUint64_of_bigEndian n v :
  1 <= n <= 8 -> 0 <= v < 2 ^ (8 * n) ->
  comb.bytesToUint64 (spec.bigEndian n v) n = Return v.
Proof.
  intros Hn Hv.
  assert (len (spec.bigEndian n v) = n) as Hlen.
  { unfold len, spec.bigEndian. rewrite length_fmap, length_seqZ. lia. }
  rewrite bytesToUint64_bigEndian by (rewrite ?Hlen; (lia || apply bigEndian_bytes)).
  rewrite take_ge by (unfold len in Hlen; lia).
  rewrite <- (Z2Nat.id n) at 1 by lia.
  rewrite fromBigEndian_bigEndian, Z2Nat.id by lia.
  f_equal. by apply Z.mod_small.
Qed.

(** The scenario of the specification: the trailing six bytes [ff] read as
    [0xffffffffffff]. *)
Lemma ReadTimeStamp_all_ones :
  comb.ReadTimeStamp (replicate 10 0 ++ replicate 6 255)
  = Return 0xffffffffffff.
Proof. reflexivity. Qed.

(** ** The reader *)

Lemma ReadAtLeast_loop_length r : forall buf min n buf' n' err,
  (n <= length buf)%nat ->
  io.ReadAtLeast_loop r buf min n = (buf', n', err) ->
  length buf' = length buf.
Proof.
  induction r as [|[data e] r IH]; intros buf min n buf' n' err Hn; simpl.
  - case_decide; intros [= <- <- <-]; done.
  - case_decide; [|intros [= <- <- <-]; done].
    set (chunk := take (length buf - n) data).
    assert (length chunk <= length buf - n)%nat as Hc.
    { unfold chunk. rewrite length_take. lia. }
    assert (length (take n buf ++ chunk ++ drop (n + length chunk) buf)
            = length buf) as Hl.
    { rewrite !length_app, length_take, length_drop. lia. }
    destruct e as [e|].
    + intros [= <- <- <-]. done.
    + intros Hloop. apply IH in Hloop; [congruence|lia].
Qed.

(** [io.ReadFull] returns a buffer as long as the one it was given. *)
Lemma ReadFull_length r buf buf' n err :
  io.ReadFull r buf = (buf', n, err) -> length buf' = length buf.
Proof.
  unfold io.ReadFull, io.ReadAtLeast. case_decide; [lia|].
  destruct (io.ReadAtLeast_loop r buf (length buf) 0) as [[b1 n1] e1] eqn:Hloop.
  apply ReadAtLeast_loop_length in Hloop; [|lia].
  case_decide; [intros [= <- <- <-]; done|].
  destruct (_ && _); intros [= <- <- <-]; done.
Qed.

(** ** The encoder, step by step *)

(** For a width the array can hold and a resolution other than zero,
    [SetTimeStamp] returns the identifier with its trailing [n] bytes
    replaced by what the encoder writes for the masked count. *)
Lemma SetTimeStamp_ok u id n t res :
  uuid.wf id -> 1 <= n <= 16 -> res <> 0 ->
  comb.SetTimeStamp u id n t res
  = Return (take (Z.to_nat (16 - n)) id
              ++ shifted n (Z.land (comb.storedUnits u t (ticksPerUnit res))
                                   (comb.timeMask n)),
            None).
Proof.
  intros Hid Hn Hres. unfold uuid.wf in Hid. unfold comb.SetTimeStamp.
  rewrite int64_quo_scale by done. cbn [mbind outcome_bind].
  assert (len id = 16) as Hlen by (unfold len; lia).
  rewrite Hlen. case_decide; [lia|].
  rewrite (int64_id (16 - n)) by (unfold int64_range; lia).
  unfold slice_from. rewrite Hlen. case_decide; [|lia].
  cbn [mbind outcome_bind].
  rewrite uint64ToBytes_spec; [|lia|].
  2:{ unfold len. rewrite length_drop. lia. }
  cbn [mbind outcome_bind]. rewrite drop_drop.
  rewrite (drop_ge id) by lia. by rewrite app_nil_r.
Qed.

(** Whatever [SetTimeStamp] returns is as long as its argument. *)
Lemma SetTimeStamp_length u id n t res id' e :
  comb.SetTimeStamp u id n t res = Return (id', e) -> length id' = length id.
Proof.
  unfold comb.SetTimeStamp. destruct (int64_quo _ res) as [res'|]; [|done].
  cbn [mbind outcome_bind]. case_decide; [by intros [= <- <-]|].
  unfold slice_from. case_decide as Hlo; [|done]. cbn [mbind outcome_bind].
  destruct (comb.uint64ToBytes _ n _) as [b|] eqn:Hb; [|done].
  cbn [mbind outcome_bind]. intros [= <- <-].
  apply uint64ToBytes_length in Hb.
  rewrite length_app, Hb, length_take, length_drop. lia.
Qed.

Lemma fillRandom_length r id n id' e :
  fillRandom r id n = Return (id', e) -> length id' = length id.
Proof.
  unfold fillRandom, slice_to. case_decide as Hhi; [|done].
  cbn [mbind outcome_bind].
  destruct (io.ReadFull r _) as [[b k] err] eqn:Hr. intros [= <- <-].
  apply ReadFull_length in Hr.
  rewrite length_app, Hr, length_take, length_drop. unfold len in Hhi. lia.
Qed.

(** [CustomTimeStampedUUID] is its three steps in a row. *)
Lemma CustomTimeStampedUUID_steps u r n t res rfc :
  comb.CustomTimeStampedUUID u r n t res rfc
  = '(id, err) ← comb.SetTimeStamp u uuid.Nil n t res;
    match err with
    | Some e => Return (id, Some (io.Errorf_s_w comb.fname e))
    | None => fillRandom r id n ≫= finish rfc
    end.
Proof.
  unfold comb.CustomTimeStampedUUID, fillRandom, finish.
  destruct (comb.SetTimeStamp u uuid.Nil n t res) as [[id [e|]]|p]; try done.
  cbn [mbind outcome_bind].
  destruct (slice_to id _) as [b|p]; [|done]. cbn [mbind outcome_bind].
  destruct (io.ReadFull r b) as [[b' k] [e|]]; done.
Qed.

(** ** The fixed-width codec against its specification *)

(** C1.  The round trip through the codec that the specification asks for
    does not hold of the code.  At width 1, with a buffer of one byte, the
    encoder writes [byte(1 >> 1) = 0] for the value 1, and the decoder reads
    0 back. *)
Theorem roundtrip_width1_value1 :
  comb.uint64ToBytes [0] 1 1 = Return [0]
  /\ (comb.uint64ToBytes [0] 1 1 ≫= fun b => comb.bytesToUint64 b 1)
     = Return 0.
Proof. split; reflexivity. Qed.

(** The same at every width: the value 1 is written as zeros, and read
    back as 0. *)
Lemma roundtrip_value1 w :
  1 <= w <= 8 ->
  (comb.uint64ToBytes (replicate (Z.to_nat w) 0) w 1
     ≫= fun b => comb.bytesToUint64 b w)
  = Return 0.
Proof.
  intros Hw. pattern w. apply (width_cases _ 1 8); [lia|].
  cbv [seqZ]. simpl. repeat constructor.
Qed.

(** C2.  The encoder does not write big-endian bytes: it shifts by
    [1 << (n-1-i)] where the reference helper of the tests shifts by
    [8 * (n-1-i)].  At width 2 the value [0x0102] is written as [64; 129] and
    not as [1; 2]; at width 6 the helper [putBytesSafe] and the encoder
    disagree on [0x010203040506]. *)
Theorem uint64ToBytes_not_bigEndian :
  comb.uint64ToBytes [0; 0] 2 0x0102 = Return [64; 129]
  /\ spec.bigEndian 2 0x0102 = [1; 2]
  /\ comb.uint64ToBytes [0; 0; 0; 0; 0; 0] 6 0x010203040506
     = Return [2; 4; 5; 80; 65; 131]
  /\ comb_test.putBytesSafe [0; 0; 0; 0; 0; 0] 6 0x010203040506
     = Return (spec.bigEndian 6 0x010203040506).
Proof. repeat split; reflexivity. Qed.

(** The one value the test of the encoder tries hides the difference. *)
Lemma TestUint64ToBytes :
  comb.uint64ToBytes (drop 10 uuid.Nil) 6 0xffffffffffff
  = comb_test.putBytesSafe (drop 10 uuid.Nil) 6 0xffffffffffff.
Proof. reflexivity. Qed.

Lemma TestBytesToUint64 :
  comb.bytesToUint64 [255; 255; 255; 255; 255; 255] 6 = Return 0xffffffffffff
  /\ comb_test.fillUint64Safe [0; 0; 255; 255; 255; 255; 255; 255]
     = Return 0xffffffffffff.
Proof. split; reflexivity. Qed.

(** ** binary64 division by 1000 *)

(** Linear arithmetic over powers of two taken as unknowns. *)
Ltac pow_lia :=
  repeat match goal with
         | |- context [2 ^ ?e] =>
             match e with context [?v] => is_var v end;
             let x := fresh "pw" in set (x := 2 ^ e) in *; clearbody x
         | H : context [2 ^ ?e] |- _ =>
             match e with context [?v] => is_var v end;
             let x := fresh "pw" in set (x := 2 ^ e) in *; clearbody x
         end;
  lia.

Lemma digits2_pos_bounds p :
  2 ^ (Z.pos (digits2_pos p) - 1) <= Z.pos p < 2 ^ Z.pos (digits2_pos p).
Proof.
  induction p as [p IH|p IH|]; cbn [digits2_pos].
  - rewrite Pos2Z.inj_succ, (Pos2Z.inj_xI p).
    replace (Z.succ (Z.pos (digits2_pos p)) - 1)
      with (Z.succ (Z.pos (digits2_pos p) - 1)) by lia.
    rewrite !Z.pow_succ_r by lia. pow_lia.
  - rewrite Pos2Z.inj_succ, (Pos2Z.inj_xO p).
    replace (Z.succ (Z.pos (digits2_pos p)) - 1)
      with (Z.succ (Z.pos (digits2_pos p) - 1)) by lia.
    rewrite !Z.pow_succ_r by lia. pow_lia.
  - by vm_compute.
Qed.

Lemma digits2_pos_unique p d :
  2 ^ (d - 1) <= Z.pos p < 2 ^ d -> Z.pos (digits2_pos p) = d.
Proof.
  intros Hd. pose proof (digits2_pos_bounds p) as HD.
  set (D := Z.pos (digits2_pos p)) in *.
  destruct (Z.lt_trichotomy D d) as [Hlt|[Heq|Hgt]]; [|done|].
  - assert (2 ^ D <= 2 ^ (d - 1)) by (apply Z.pow_le_mono_r; lia). lia.
  - assert (0 <= d).
    { destruct (decide (0 <= d)); [done|].
      rewrite (Z.pow_neg_r 2 d) in Hd by lia. lia. }
    assert (2 ^ d <= 2 ^ (D - 1)) by (apply Z.pow_le_mono_r; lia). lia.
Qed.

Lemma fexp_normal e : -1021 <= e -> fexp 53 1024 e = e - 53.
Proof. intros He. unfold fexp, emin. lia. Qed.

Lemma loc_of_record_of_loc m l :
  loc_of_shr_record (shr_record_of_loc m l) = l.
Proof. by destruct l as [|[]]. Qed.

Lemma round_nearest_even_cases q l :
  round_nearest_even q l = q \/ round_nearest_even q l = q + 1.
Proof. destruct l as [|[]]; cbn; try destruct (Z.even q); auto. Qed.

(** Rounding a mantissa of 53 digits: the mantissa is rounded as it is, and
    a carry out of the 53 digits halves it. *)
Lemma round_aux_53 s q e l :
  2 ^ 52 <= q < 2 ^ 53 -> -1074 <= e <= 900 ->
  exists m e',
    binary_round_aux 53 1024 s q e l = S754_finite s m e'
    /\ e <= e' <= e + 1
    /\ Z.pos m * 2 ^ (e' - e) = round_nearest_even q l
    /\ (round_nearest_even q l < 2 ^ 53 -> e' = e).
Proof.
  intros Hq He. destruct q as [|p|p]; try lia.
  assert (Zdigits2 (Z.pos p) = 53) as Hd
    by (apply digits2_pos_unique; simpl; lia).
  unfold binary_round_aux, shr_fexp. rewrite Hd.
  rewrite fexp_normal by lia.
  replace (53 + e - 53 - e) with 0 by lia. cbn [shr].
  rewrite loc_of_record_of_loc.
  replace (shr_m (shr_record_of_loc (Z.pos p) l)) with (Z.pos p)
    by (by destruct l as [|[]]).
  destruct (round_nearest_even_cases (Z.pos p) l) as [Hr|Hr]; rewrite Hr.
  - rewrite Hd, fexp_normal by lia.
    replace (53 + e - 53 - e) with 0 by lia. cbn [shr shr_record_of_loc shr_m].
    exists p, e. destruct (Z.leb_spec e (1024 - 53)); [|lia].
    split; [done|]. split; [lia|]. rewrite Z.sub_diag. split; [lia|done].
  - destruct (decide (Z.pos p + 1 < 2 ^ 53)) as [Hlt|Hge].
    + destruct (Z.pos p + 1) as [|p'|p'] eqn:Hp'; try lia.
      assert (Zdigits2 (Z.pos p') = 53) as Hd'
        by (apply digits2_pos_unique; simpl; lia).
      rewrite Hd', fexp_normal by lia.
      replace (53 + e - 53 - e) with 0 by lia.
      cbn [shr shr_record_of_loc shr_m].
      exists p', e. destruct (Z.leb_spec e (1024 - 53)); [|lia].
      split; [done|]. split; [lia|]. rewrite Z.sub_diag. split; [lia|done].
    + assert (Z.pos p + 1 = 9007199254740992) as -> by lia.
      change (Zdigits2 9007199254740992) with 54.
      rewrite fexp_normal by lia.
      replace (54 + e - 53 - e) with 1 by lia.
      cbn. exists (4503599627370496%positive), (e + 1).
      destruct (Z.leb_spec (e + 1) (1024 - 53)); [|lia].
      split; [done|]. split; [lia|].
      replace (e + 1 - e) with 1 by lia. split; [reflexivity|lia].
Qed.

Lemma record_of_loc_of_record r :
  shr_record_of_loc (shr_m r) (loc_of_shr_record r) = r.
Proof. by destruct r as [m [] []]. Qed.

(** Rounding a mantissa of 54 digits: one digit is shifted out first. *)
Lemma round_aux_54 s q e l :
  2 ^ 53 <= q < 2 ^ 54 -> -1074 <= e ->
  binary_round_aux 53 1024 s q e l
  = binary_round_aux 53 1024 s (Z.div2 q) (e + 1)
      (loc_of_shr_record (shr_1 (shr_record_of_loc q l))).
Proof.
  intros Hq He. destruct q as [|p|p]; try lia.
  assert (Zdigits2 (Z.pos p) = 54) as Hd
    by (apply digits2_pos_unique; simpl; lia).
  assert (2 ^ 52 <= Z.div2 (Z.pos p) < 2 ^ 53) as Hhalf.
  { rewrite Z.div2_div. split.
    - apply Z.div_le_lower_bound; lia.
    - apply Z.div_lt_upper_bound; lia. }
  assert (shr_m (shr_1 (shr_record_of_loc (Z.pos p) l)) = Z.div2 (Z.pos p))
    as Hm.
  { by destruct p, l as [|[]]. }
  destruct (Z.div2 (Z.pos p)) as [|p'|p'] eqn:Hp'; try lia.
  assert (Zdigits2 (Z.pos p') = 53) as Hd'
    by (apply digits2_pos_unique; simpl; lia).
  unfold binary_round_aux at 1 2, shr_fexp at 1 3.
  rewrite Hd, Hd', !fexp_normal by lia.
  replace (54 + e - 53 - e) with 1 by lia.
  replace (53 + (e + 1) - 53 - (e + 1)) with 0 by lia.
  cbn [shr iter_pos]. rewrite <- Hm, record_of_loc_of_record.
  reflexivity.
Qed.

(** The error of rounding to nearest, for a quotient with a remainder. *)
Lemma round_error_53 q r m2 :
  0 < m2 -> Z.even m2 = true -> 0 <= r < m2 ->
  2 * Z.abs (round_nearest_even q (new_location m2 r) * m2 - (q * m2 + r))
  <= m2.
Proof.
  intros Hm Heven Hr. unfold new_location. rewrite Heven.
  unfold new_location_even.
  destruct (Z.eqb_spec r 0) as [->|Hr0]; cbn [round_nearest_even]; [lia|].
  destruct (Z.compare_spec (2 * r) m2); cbn [round_nearest_even];
    [destruct (Z.even q)|..]; lia.
Qed.

Lemma round_error_54 q r m2 :
  0 < m2 -> Z.even m2 = true -> 0 <= r < m2 -> 0 < q ->
  Z.abs (2 * round_nearest_even (Z.div2 q)
               (loc_of_shr_record
                  (shr_1 (shr_record_of_loc q (new_location m2 r)))) * m2
         - (q * m2 + r))
  <= m2.
Proof.
  intros Hm Heven Hr Hq. unfold new_location. rewrite Heven.
  unfold new_location_even. destruct q as [|p|p]; try lia.
  destruct (Z.eqb_spec r 0) as [->|Hr0].
  - destruct p as [p|p|]; cbn -[Z.mul Z.add Z.abs Z.even];
      try change (IntDef.Z.even 0) with true; cbn iota;
      try destruct (Z.even (Z.pos p)); lia.
  - destruct (Z.compare_spec (2 * r) m2), p as [p|p|];
      cbn -[Z.mul Z.add Z.abs Z.even];
      try change (IntDef.Z.even 0) with true; cbn iota; lia.
Qed.

Lemma iter_xO p k : Z.pos (Pos.iter xO p k) = Z.pos p * 2 ^ Z.pos k.
Proof.
  induction k as [|k IH] using Pos.peano_ind.
  - cbn [Pos.iter]. rewrite (Pos2Z.inj_xO p). lia.
  - rewrite Pos.iter_succ, Pos2Z.inj_xO, IH, Pos2Z.inj_succ, Z.pow_succ_r by lia.
    lia.
Qed.

(** An integer below [2^53] converts exactly, to a mantissa of 53 digits. *)
Lemma of_int_pos p :
  Z.pos p < 2 ^ 53 ->
  exists m,
    float64.of_int (Z.pos p)
    = S754_finite false m (Z.pos (digits2_pos p) - 53)
    /\ Z.pos m = Z.pos p * 2 ^ (53 - Z.pos (digits2_pos p))
    /\ 2 ^ 52 <= Z.pos m < 2 ^ 53.
Proof.
  intros Hp. pose proof (digits2_pos_bounds p) as Hb.
  set (d := Z.pos (digits2_pos p)) in *.
  assert (1 <= d <= 53) as Hd.
  { split; [unfold d; lia|].
    destruct (decide (d <= 53)); [done|].
    assert (2 ^ 53 <= 2 ^ (d - 1)) by (apply Z.pow_le_mono_r; lia). lia. }
  unfold float64.of_int, float64.prec, float64.emax.
  unfold binary_normalize, binary_round.
  fold d. rewrite fexp_normal by lia. unfold shl_align.
  replace (d + 0 - 53 - 0) with (d - 53) by lia.
  assert (exists mz : positive,
            (match d - 53 with
             | Z.neg k => (Pos.iter xO p k, d + 0 - 53)
             | _ => (p, 0)
             end) = (mz, d - 53)
            /\ Z.pos mz = Z.pos p * 2 ^ (53 - d)) as (mz & -> & Hmz).
  { destruct (d - 53) as [|k|k] eqn:Hk; try lia.
    - exists p. split; [done|]. replace (53 - d) with 0 by lia. lia.
    - exists (Pos.iter xO p k). split; [f_equal; lia|].
      rewrite iter_xO. do 2 f_equal. lia. }
  assert (2 ^ 52 <= Z.pos mz < 2 ^ 53) as Hrange.
  { rewrite Hmz.
    assert (2 ^ (d - 1) * 2 ^ (53 - d) = 2 ^ 52) as H1
      by (rewrite <- Z.pow_add_r by lia; f_equal; lia).
    assert (2 ^ d * 2 ^ (53 - d) = 2 ^ 53) as H2
      by (rewrite <- Z.pow_add_r by lia; f_equal; lia).
    assert (0 < 2 ^ (53 - d)) by (apply Z.pow_pos_nonneg; lia).
    rewrite <- H1, <- H2. split; [apply Z.mul_le_mono_nonneg_r|
                                  apply Z.mul_lt_mono_pos_r]; lia. }
  exists mz. split; [|done].
  destruct (round_aux_53 false (Z.pos mz) (d - 53) loc_Exact Hrange)
    as (m & e' & Hr & He' & Hv & Hnc); [lia|].
  rewrite Hr. cbn [round_nearest_even] in Hv, Hnc.
  rewrite Hnc in * by lia.
  rewrite Z.sub_diag in Hv. f_equal. lia.
Qed.

Lemma of_int_1000 :
  float64.of_int 1000 = S754_finite false 8796093022208000 (-43).
Proof. reflexivity. Qed.

Lemma near_intro t m e0 e M :
  e0 <= e <= e0 + 1 -> Z.pos m * 2 ^ (e - e0) = M -> 9 <= - e0 -> e < 0 ->
  Z.abs (1000 * M - t * 2 ^ (- e0)) <= 500 ->
  near t m e.
Proof.
  intros He HM He0 Hneg Herr. split; [done|]. exists (e - e0).
  split; [lia|]. split; [lia|].
  destruct (decide (e = e0)) as [->|Hne].
  - rewrite Z.sub_diag in *. change (2 ^ 0) with 1 in *.
    replace M with (Z.pos m) in Herr by lia. lia.
  - assert (e = e0 + 1) as -> by lia.
    replace (e0 + 1 - e0) with 1 in * by lia. change (2 ^ 1) with 2 in *.
    replace (- e0) with (Z.succ (- (e0 + 1))) in Herr by lia.
    rewrite Z.pow_succ_r in Herr by lia. pow_lia.
Qed.

Lemma div_1000 t :
  0 < t < 2 ^ 53 ->
  exists m e,
    float64.div (float64.of_int t) (float64.of_int 1000)
    = S754_finite false m e
    /\ near t m e.
Proof.
  intros Ht. destruct t as [|p|p]; try lia.
  destruct (of_int_pos p) as (m1 & H1 & Hm1 & Hr1); [lia|].
  rewrite H1, of_int_1000.
  pose proof (digits2_pos_bounds p) as Hb.
  set (d := Z.pos (digits2_pos p)) in *.
  assert (1 <= d <= 53) as Hd.
  { split; [unfold d; lia|].
    destruct (decide (d <= 53)); [done|].
    assert (2 ^ 53 <= 2 ^ (d - 1)) by (apply Z.pow_le_mono_r; lia). lia. }
  unfold float64.div, float64.prec, float64.emax, SFdiv, SFdiv_core_binary.
  assert (Zdigits2 (Z.pos m1) = 53) as ->
    by (apply digits2_pos_unique; simpl; lia).
  change (Zdigits2 (Z.pos 8796093022208000)) with 53.
  rewrite fexp_normal by lia.
  replace (Z.min (53 + (d - 53) - (53 + -43) - 53) (d - 53 - -43))
    with (d - 63) by lia.
  replace (d - 53 - -43 - (d - 63)) with 53 by lia.
  rewrite Z.shiftl_mul_pow2 by lia.
  set (N := Z.pos m1 * 2 ^ 53).
  pose proof (Z_div_mod N 8796093022208000 eq_refl) as Hdiv.
  change Z.div_eucl with IntDef.Z.div_eucl in Hdiv.
  destruct (IntDef.Z.div_eucl N 8796093022208000) as [q r].
  destruct Hdiv as [HN Hr]. cbn [xorb].
  assert (2 ^ 52 <= q < 2 ^ 54) as Hq by (unfold N in HN; lia).
  assert (2 ^ (53 - d) * 1024 = 2 ^ (63 - d)) as Hp63.
  { change 1024 with (2 ^ 10). rewrite <- Z.pow_add_r by lia. f_equal. lia. }
  assert (2 ^ (53 - d) * 512 = 2 ^ (62 - d)) as Hp62.
  { change 512 with (2 ^ 9). rewrite <- Z.pow_add_r by lia. f_equal. lia. }
  destruct (decide (q < 2 ^ 53)) as [Hq53|Hq54].
  - destruct (round_aux_53 false q (d - 63)
                (new_location 8796093022208000 r))
      as (m & e & Hres & He & Hv & _); [lia|lia|].
    exists m, e. split; [done|].
    apply (near_intro _ _ (d - 63) _ _ He Hv); [lia|lia|].
    pose proof (round_error_53 q r 8796093022208000
                  eq_refl eq_refl Hr) as Herr.
    replace (- (d - 63)) with (63 - d) by lia. rewrite <- Hp63.
    replace (q * 8796093022208000 + r) with N in Herr by lia.
    unfold N in Herr. rewrite Hm1 in Herr.
    change (2 ^ 53) with 9007199254740992 in Herr. pow_lia.
  - rewrite round_aux_54 by lia.
    assert (2 ^ 52 <= Z.div2 q < 2 ^ 53) as Hhalf.
    { rewrite Z.div2_div. split.
      - apply Z.div_le_lower_bound; lia.
      - apply Z.div_lt_upper_bound; lia. }
    destruct (round_aux_53 false (Z.div2 q) (d - 63 + 1)
                (loc_of_shr_record
                   (shr_1 (shr_record_of_loc q
                             (new_location 8796093022208000 r)))))
      as (m & e & Hres & He & Hv & _); [lia|lia|].
    exists m, e. split; [done|].
    apply (near_intro _ _ (d - 63 + 1) _ _ He Hv); [lia|lia|].
    pose proof (round_error_54 q r 8796093022208000
                  eq_refl eq_refl Hr ltac:(lia)) as Herr.
    replace (- (d - 63 + 1)) with (62 - d) by lia. rewrite <- Hp62.
    replace (q * 8796093022208000 + r) with N in Herr by lia.
    unfold N in Herr. rewrite Hm1 in Herr.
    change (2 ^ 53) with 9007199254740992 in Herr. pow_lia.
Qed.

Lemma round_arith t m n k :
  0 <= t -> 0 <= k <= 1 -> 9 <= n + k -> 1 <= n ->
  2 ^ k * Z.abs (1000 * m - t * 2 ^ n) <= 500 ->
  (m + 2 ^ (n - 1)) / 2 ^ n = (2 * t + 1000) / 2000.
Proof.
  intros Ht Hk Hn Hn1 Herr.
  set (K := (2 * t + 1000) / 2000).
  assert (2000 * K <= 2 * t + 1000 < 2000 * K + 2000) as HK.
  { unfold K. pose proof (Z.div_mod (2 * t + 1000) 2000).
    pose proof (Z.mod_pos_bound (2 * t + 1000) 2000). lia. }
  assert (2 ^ n = 2 * 2 ^ (n - 1)) as HE.
  { rewrite <- Z.pow_succ_r by lia. f_equal. lia. }
  assert (512 <= 2 ^ k * 2 ^ n) as Hbig.
  { rewrite <- Z.pow_add_r by lia. change 512 with (2 ^ 9).
    apply Z.pow_le_mono_r; lia. }
  assert (0 < 2 ^ k) as Hk0 by (apply Z.pow_pos_nonneg; lia).
  assert (0 < 2 ^ (n - 1)) as HH by (apply Z.pow_pos_nonneg; lia).
  rewrite HE in *. set (H := 2 ^ (n - 1)) in *. clearbody H.
  set (c := Z.abs (1000 * m - t * (2 * H))) in *.
  assert (c <= 500 /\ c < 2 * H) as [Hc1 Hc2].
  { assert (0 <= c) by (unfold c; lia).
    assert (k = 0 \/ k = 1) as [-> | ->] by lia.
    - change (2 ^ 0) with 1 in *. lia.
    - change (2 ^ 1) with 2 in *. lia. }
  clear Herr Hbig Hk0.
  assert ((t - (1000 * K - 500)) * H >= 0) as Hlo by nia.
  assert (((1000 * K + 499) - t) * H >= 0) as Hhi by nia.
  symmetry. apply (Z.div_unique _ _ K (m + H - 2 * H * K)); [|lia].
  left. unfold c in *. lia.
Qed.

Lemma to_uint64_of_int u z :
  0 <= z < 2 ^ 53 -> float64.to_uint64 u (float64.of_int z) = z.
Proof.
  intros Hz. destruct z as [|p|p]; try lia; [reflexivity|].
  destruct (of_int_pos p) as (m & Hm & Hv & _); [lia|].
  pose proof (digits2_pos_bounds p) as Hb.
  set (d := Z.pos (digits2_pos p)) in *.
  assert (1 <= d <= 53) as Hd.
  { split; [unfold d; lia|].
    destruct (decide (d <= 53)); [done|].
    assert (2 ^ 53 <= 2 ^ (d - 1)) by (apply Z.pow_le_mono_r; lia). lia. }
  unfold float64.to_uint64. rewrite Hm. cbn [float64.trunc cond_Zopp].
  replace (d - 53) with (- (53 - d)) by lia.
  rewrite Z.shiftl_div_pow2, Z.opp_involutive, Hv, Z.div_mul
    by (try apply Z.pow_nonzero; lia).
  case_decide; [done|lia].
Qed.

(** At the divisor 1000 and for a time below [2^53], which binary64 holds
    exactly, the count is the rounded quotient of the integers. *)
Lemma storedUnits_1000 u t :
  0 <= t < 2 ^ 53 -> comb.storedUnits u t 1000 = (2 * t + 1000) / 2000.
Proof.
  intros Ht. destruct (decide (t = 0)) as [->|Ht0]; [reflexivity|].
  destruct (div_1000 t) as (m & e & Hdiv & Hneg & k & Hk & He & Herr);
    [lia|].
  unfold comb.storedUnits. rewrite Hdiv. unfold float64.Round.
  case_decide; [lia|]. cbn [cond_Zopp].
  replace (- e - 1) with (- e - 1) by lia.
  pose proof (round_arith t (Z.pos m) (- e) k) as Hr.
  replace (- e - 1) with (- e - 1) in Hr by lia.
  rewrite Hr by lia.
  apply to_uint64_of_int. split.
  - apply Z.div_pos; lia.
  - apply Z.div_lt_upper_bound; lia.
Qed.

(** At the resolution [NewTimeStampedUUID] passes, a tenth of a
    millisecond, and for a time below [2^53], the count is the one the
    specification gives. *)
Lemma storedUnits_default u t :
  0 <= t < 2 ^ 53 ->
  comb.storedUnits u t (ticksPerUnit (Z.quot time.Millisecond 10))
  = spec.storedUnits t (Z.quot time.Millisecond 10).
Proof.
  intros Ht. change (ticksPerUnit (Z.quot time.Millisecond 10)) with 1000.
  rewrite storedUnits_1000 by done.
  unfold spec.storedUnits, spec.roundDiv.
  change (spec.scale (Z.quot time.Millisecond 10)) with 1000.
  destruct (decide (t = 0)) as [->|Ht0]; [reflexivity|].
  rewrite Z.sgn_pos, Z.abs_eq by lia. change (2 * 1000) with 2000. lia.
Qed.

(** ** The stored count *)

(** C3.  The count [SetTimeStamp] stores is not the rounded number of
    [r]-sized intervals in [t]: the divisor it makes of the resolution is
    [10^8 / r], not [r / 100].  For one millisecond and 10000 ticks (one
    millisecond) it stores 100 where the specification gives 1. *)
Theorem storedUnits_one_millisecond (u : float64.t -> Z) :
  ticksPerUnit time.Millisecond = 100
  /\ spec.scale time.Millisecond = 10000
  /\ comb.storedUnits u 10000 (ticksPerUnit time.Millisecond) = 100
  /\ spec.storedUnits 10000 time.Millisecond = 1
  /\ comb.SetTimeStamp u uuid.Nil 6 10000 time.Millisecond
     = Return (replicate 10 0 ++ shifted 6 100, None).
Proof. repeat split; vm_compute; reflexivity. Qed.

(** The two divisors agree at the resolution [NewTimeStampedUUID] uses, a
    tenth of a millisecond. *)
Lemma ticksPerUnit_default :
  ticksPerUnit (Z.quot time.Millisecond 10)
  = spec.scale (Z.quot time.Millisecond 10).
Proof. reflexivity. Qed.

(** The quotient is a binary64 one: at that resolution, for a time of the
    year 2026, the count is one more than the rounded quotient of the
    integers. *)
Lemma storedUnits_binary64 (u : float64.t -> Z) :
  comb.storedUnits u 140200000000000489 1000 = 140200000000001
  /\ spec.storedUnits 140200000000000489 100000 = 140200000000000.
Proof. split; vm_compute; reflexivity. Qed.

(** ** Failures of the encoder *)

(** C4.  A short read returns what was built so far, not the zero
    identifier: with a reader that delivers three bytes and a width of 6,
    the identifier returned with the error holds the three bytes and the
    time stamp. *)
Theorem short_read_returns_partial_buffer (u : float64.t -> Z) :
  comb.CustomTimeStampedUUID u [([1; 2; 3], None)] 6 256000 100000 true
  = Return ([1; 2; 3; 0; 0; 0; 0; 0; 0; 0; 0; 0; 1; 16; 64; 128],
            Some (io.Wrapped "CustomTimeStampedUUID: unexpected EOF"
                             io.ErrUnexpectedEOF)).
Proof. vm_compute. reflexivity. Qed.

(** The two other failure paths of the package return the zero
    identifier. *)
Lemma too_many_bytes_returns_Nil u r n t res rfc :
  16 < n -> res <> 0 ->
  comb.CustomTimeStampedUUID u r n t res rfc
  = Return (uuid.Nil,
            Some (io.Wrapped "CustomTimeStampedUUID: to many bytes to format"
                             (io.New "to many bytes to format"))).
Proof.
  intros Hn Hres. rewrite CustomTimeStampedUUID_steps.
  unfold comb.SetTimeStamp. rewrite int64_quo_scale by done.
  cbn [mbind outcome_bind]. change (len uuid.Nil) with 16.
  case_decide; [done|lia].
Qed.

Lemma NewTimeStampedUUID_clock_error u e r :
  comb.NewTimeStampedUUID u 0 (Some e) r
  = Return (uuid.Nil, Some (io.Errorf_s_w "NewTimeStampedUUID" e)).
Proof. reflexivity. Qed.

(** ** The two encoders *)

Lemma part_000_uint64ToBytes b n v :
  part_000.uint64ToBytes b n v = comb.uint64ToBytes b n v.
Proof. reflexivity. Qed.

Lemma part_000_SetTimeStamp u id n t res :
  part_000.SetTimeStamp u id n t res = comb.SetTimeStamp u id n t res.
Proof. reflexivity. Qed.

(** C10.  With the flag off, the encoder of [main.go] returns what the
    encoder of the older file returns, for every reader, width, time and
    resolution. *)
Theorem CustomTimeStampedUUID_without_flag
    (u : float64.t -> Z) (r : io.Reader) (nBytes t res : Z) :
  comb.CustomTimeStampedUUID u r nBytes t res false
  = part_000.CustomTimeStampedUUID u r nBytes t res.
Proof.
  unfold comb.CustomTimeStampedUUID, part_000.CustomTimeStampedUUID.
  change (part_000.SetTimeStamp u uuid.Nil nBytes t res)
    with (comb.SetTimeStamp u uuid.Nil nBytes t res).
  destruct (comb.SetTimeStamp u uuid.Nil nBytes t res) as [[id [e|]]|p];
    reflexivity.
Qed.

(** ** The width of the time stamp *)

Lemma panics_failed (m : outcome (uuid.UUID * option io.error)) :
  panics m -> failed m.
Proof. by destruct m as [[id [e|]]|p]. Qed.

(** A width below 1 panics: the slice expression does for a negative
    width, the bounds check of the encoder for width 0. *)
Lemma SetTimeStamp_below_1 u id n t res :
  uuid.wf id -> int64_range n -> n < 1 -> res <> 0 ->
  comb.SetTimeStamp u id n t res
  = Panics (if decide (n = 0) then IndexOutOfRange
            else SliceBoundsOutOfRange).
Proof.
  intros Hid Hn Hlt Hres. unfold uuid.wf in Hid. unfold int64_range in Hn.
  unfold comb.SetTimeStamp.
  rewrite int64_quo_scale by done. cbn [mbind outcome_bind].
  assert (len id = 16) as Hlen by (unfold len; lia). rewrite Hlen.
  destruct (decide (n > 16)) as [?|_]; [lia|]. unfold slice_from.
  rewrite Hlen.
  destruct (decide (n = 0)) as [->|Hn0].
  - change (int64 (16 - 0)) with 16.
    destruct (decide (0 <= 16 <= 16)) as [_|?]; [|lia].
    cbn [mbind outcome_bind]. rewrite drop_ge by lia. done.
  - destruct (decide (16 - n < 2 ^ 63)) as [Hsmall|Hbig].
    + rewrite (int64_id (16 - n)) by (unfold int64_range; lia).
      by destruct (decide (0 <= 16 - n <= 16)) as [?|_]; [lia|].
    + pose proof (int64_wraps_negative (16 - n)) as Hneg.
      by destruct (decide (0 <= int64 (16 - n) <= 16)) as [?|_]; [lia|].
Qed.

Lemma SetTimeStamp_panics_below_1 u id n t res :
  uuid.wf id -> int64_range n -> n < 1 ->
  panics (comb.SetTimeStamp u id n t res).
Proof.
  intros Hid Hn Hlt. destruct (decide (res = 0)) as [->|Hres]; [done|].
  by rewrite SetTimeStamp_below_1.
Qed.

Lemma SetTimeStamp_too_many_bytes u id n t res :
  uuid.wf id -> 16 < n -> res <> 0 ->
  comb.SetTimeStamp u id n t res
  = Return (id, Some (io.New "to many bytes to format")).
Proof.
  intros Hid Hn Hres. unfold uuid.wf in Hid. unfold comb.SetTimeStamp.
  rewrite int64_quo_scale by done. cbn [mbind outcome_bind].
  case_decide as Hc; [done|]. unfold len in Hc. lia.
Qed.

Lemma SetTimeStamp_zero_resolution u id n t :
  comb.SetTimeStamp u id n t 0 = Panics IntegerDivideByZero.
Proof. reflexivity. Qed.

Lemma SetTimeStamp_fails_outside u id n t res :
  uuid.wf id -> int64_range n -> n < 1 \/ 16 < n ->
  failed (comb.SetTimeStamp u id n t res).
Proof.
  intros Hid Hn [Hlt|Hgt].
  - by apply panics_failed, SetTimeStamp_panics_below_1.
  - destruct (decide (res = 0)) as [->|Hres]; [done|].
    by rewrite SetTimeStamp_too_many_bytes.
Qed.

(** The encoder fails whenever writing the time stamp does. *)
Lemma CustomTimeStampedUUID_fails u r n t res rfc :
  failed (comb.SetTimeStamp u uuid.Nil n t res) ->
  failed (comb.CustomTimeStampedUUID u r n t res rfc).
Proof.
  rewrite CustomTimeStampedUUID_steps.
  by destruct (comb.SetTimeStamp u uuid.Nil n t res) as [[id [e|]]|p].
Qed.

(** A panic of [SetTimeStamp] is a panic of the constructor. *)
Lemma CustomTimeStampedUUID_panics u r n t res rfc p :
  comb.SetTimeStamp u uuid.Nil n t res = Panics p ->
  comb.CustomTimeStampedUUID u r n t res rfc = Panics p.
Proof. intros Hp. by rewrite CustomTimeStampedUUID_steps, Hp. Qed.

(** C5, as the code has it.  The identifier's own length, 16, bounds the
    width, not the 8 bytes of a [uint64], and the resolution is divided by
    before the width is looked at.  With a zero resolution [SetTimeStamp]
    and the constructor panic with an integer division by zero, at every
    width.  With any other resolution: above 16 [SetTimeStamp] returns the
    identifier it was given with the error "to many bytes to format", and
    the constructor the zero identifier with that error wrapped; below 1
    both panic, with an index out of range at width 0 and with slice bounds
    out of range at a negative width; from 1 to 16, 9 to 16 included,
    [SetTimeStamp] returns without an error, the leading bytes kept and the
    time stamp in the trailing ones.  So outside of 1..16 construction
    fails, at every resolution. *)
Theorem SetTimeStamp_width
    (u : float64.t -> Z) (id : uuid.UUID) (r : io.Reader)
    (nBytes t res : Z) (rfc4122 : bool) :
  uuid.wf id -> int64_range nBytes ->
  (res = 0 ->
     comb.SetTimeStamp u id nBytes t res = Panics IntegerDivideByZero
     /\ comb.CustomTimeStampedUUID u r nBytes t res rfc4122
        = Panics IntegerDivideByZero)
  /\ (res <> 0 -> 16 < nBytes ->
      comb.SetTimeStamp u id nBytes t res
      = Return (id, Some (io.New "to many bytes to format"))
      /\ comb.CustomTimeStampedUUID u r nBytes t res rfc4122
         = Return (uuid.Nil,
                   Some (io.Errorf_s_w comb.fname
                           (io.New "to many bytes to format"))))
  /\ (res <> 0 -> nBytes < 1 ->
      comb.SetTimeStamp u id nBytes t res
      = Panics (if decide (nBytes = 0) then IndexOutOfRange
                else SliceBoundsOutOfRange)
      /\ comb.CustomTimeStampedUUID u r nBytes t res rfc4122
         = Panics (if decide (nBytes = 0) then IndexOutOfRange
                   else SliceBoundsOutOfRange))
  /\ (res <> 0 -> 1 <= nBytes <= 16 ->
      comb.SetTimeStamp u id nBytes t res
      = Return (take (Z.to_nat (16 - nBytes)) id ++ stamp u nBytes t res,
                None))
  /\ (nBytes < 1 \/ 16 < nBytes ->
      failed (comb.SetTimeStamp u id nBytes t res)
      /\ failed (comb.CustomTimeStampedUUID u r nBytes t res rfc4122)).
Proof.
  intros Hid Hn. split; [|split; [|split; [|split]]].
  - by intros ->.
  - intros Hres Hgt. split; [by apply SetTimeStamp_too_many_bytes|].
    by apply too_many_bytes_returns_Nil.
  - intros Hres Hlt. split; [by apply SetTimeStamp_below_1|].
    by apply CustomTimeStampedUUID_panics, SetTimeStamp_below_1.
  - intros Hres Hin. by apply SetTimeStamp_ok.
  - intros Hout. split; [by apply SetTimeStamp_fails_outside|].
    apply CustomTimeStampedUUID_fails.
    by apply SetTimeStamp_fails_outside.
Qed.

(** C5, as stated, fails at width 9: [SetTimeStamp] returns without an
    error. *)
Lemma SetTimeStamp_width9_succeeds :
  ~ failed (comb.SetTimeStamp float64.saturating uuid.Nil 9 256000 100000).
Proof. vm_compute. tauto. Qed.

(** ** Wrap-around of the time stamp *)

(** The mask is right: for a width of 1..8 [SetTimeStamp] returns without
    an error, and the value the trailing bytes are made of is the count
    reduced modulo [2^(8*nBytes)], whether or not the count fits the
    width.  The bytes themselves are the encoder's. *)
Lemma SetTimeStamp_masked u (id : uuid.UUID) n t res :
  uuid.wf id -> 1 <= n <= 8 -> res <> 0 ->
  comb.SetTimeStamp u id n t res
  = Return (take (Z.to_nat (16 - n)) id
              ++ shifted n (comb.storedUnits u t (ticksPerUnit res)
                              mod 2 ^ (8 * n)),
            None).
Proof.
  intros Hid Hn Hres. rewrite SetTimeStamp_ok by (done || lia).
  by rewrite land_timeMask by (apply storedUnits_range || done).
Qed.

(** C6.  At width 1, a resolution of a tenth of a millisecond and a time of
    511000 ticks, the count is 511, which does not fit one byte; 511 modulo
    [2^8] is 255, the byte [255].  [SetTimeStamp] returns without an error,
    but the byte it writes is 127: the count is masked to 255 and the encoder
    then shifts it by one bit.  Read back, the time stamp is 127, where the
    byte [255] reads back as 255. *)
Theorem SetTimeStamp_wraps_width1 (u : float64.t -> Z) :
  comb.storedUnits u 511000 (ticksPerUnit 100000) = 511
  /\ 2 ^ (8 * 1) <= 511
  /\ 511 mod 2 ^ (8 * 1) = 255
  /\ spec.bigEndian 1 255 = [255]
  /\ comb.SetTimeStamp u uuid.Nil 1 511000 100000
     = Return (replicate 15 0 ++ [127], None)
  /\ comb.ReadCustomTimeStamp (replicate 15 0 ++ [127]) 1 = Return 127
  /\ comb.ReadCustomTimeStamp (replicate 15 0 ++ spec.bigEndian 1 255) 1
     = Return 255.
Proof.
  split; [by vm_compute|]. split; [lia|].
  repeat split; vm_compute; reflexivity.
Qed.

(** ** The format marker *)

Lemma version_nibble x : Z.shiftr (Z.lor (Z.land x 0x0f) 0x60) 4 = 6.
Proof.
  rewrite Z.shiftr_lor, Z.shiftr_land.
  change (Z.shiftr 0x0f 4) with 0. by rewrite Z.land_0_r.
Qed.

Lemma version_keeps_low_nibble x :
  Z.land (Z.lor (Z.land x 0x0f) 0x60) 0x0f = Z.land x 0x0f.
Proof.
  rewrite Z.land_lor_distr_l, <- Z.land_assoc.
  change (Z.land 0x60 0x0f) with 0. apply Z.lor_0_r.
Qed.

Lemma variant_three_bits x : Z.shiftr (Z.lor (Z.land x 0x3f) 0xe0) 5 = 7.
Proof.
  rewrite Z.shiftr_lor, Z.shiftr_land.
  change (Z.shiftr 0x3f 5) with (Z.ones 1). rewrite Z.land_ones by lia.
  change (Z.shiftr 0xe0 5) with 7.
  assert (0 <= Z.shiftr x 5 mod 2 ^ 1 < 2) as Hm
    by (apply Z.mod_pos_bound; lia).
  assert (Z.shiftr x 5 mod 2 ^ 1 = 0 \/ Z.shiftr x 5 mod 2 ^ 1 = 1)
    as [-> | ->] by lia; reflexivity.
Qed.

Lemma variant_two_bits x : Z.shiftr (Z.lor (Z.land x 0x3f) 0xe0) 6 = 3.
Proof.
  rewrite Z.shiftr_lor, Z.shiftr_land.
  change (Z.shiftr 0x3f 6) with 0. by rewrite Z.land_0_r.
Qed.

Lemma variant_keeps_low_five x :
  Z.land (Z.lor (Z.land x 0x3f) 0xe0) 0x1f = Z.land x 0x1f.
Proof.
  rewrite Z.land_lor_distr_l, <- Z.land_assoc.
  change (Z.land 0xe0 0x1f) with 0. apply Z.lor_0_r.
Qed.

(** The marker on an identifier of 16 bytes, byte by byte. *)
Lemma setVersionVariant_bytes (id : uuid.UUID) :
  uuid.wf id ->
  comb.setVersionVariant id !!! 6%nat = Z.lor (Z.land (id !!! 6%nat) 0x0f) 0x60
  /\ comb.setVersionVariant id !!! 8%nat
     = Z.lor (Z.land (id !!! 8%nat) 0x3f) 0xe0
  /\ forall i : nat, i <> 6%nat -> i <> 8%nat ->
       comb.setVersionVariant id !! i = id !! i.
Proof.
  intros Hid. unfold uuid.wf in Hid. unfold comb.setVersionVariant.
  cbv zeta. split; [|split].
  - rewrite list_lookup_total_insert_ne by done.
    by rewrite list_lookup_total_insert_eq by lia.
  - rewrite list_lookup_total_insert_eq by (rewrite length_insert; lia).
    by rewrite list_lookup_total_insert_ne by done.
  - intros i H6 H8. by rewrite !list_lookup_insert_ne by done.
Qed.

(** A call that returns without an error returns 16 bytes. *)
Lemma CustomTimeStampedUUID_wf u r n t res rfc id :
  comb.CustomTimeStampedUUID u r n t res rfc = Return (id, None) ->
  uuid.wf id.
Proof.
  rewrite CustomTimeStampedUUID_steps.
  destruct (comb.SetTimeStamp u uuid.Nil n t res) as [[id1 [e|]]|p] eqn:Hs;
    try done.
  cbn [mbind outcome_bind].
  destruct (fillRandom r id1 n) as [[id2 [e|]]|p] eqn:Hf; try done.
  cbn [mbind outcome_bind finish]. intros [= <-].
  apply SetTimeStamp_length in Hs. apply fillRandom_length in Hf.
  unfold uuid.wf. destruct rfc; [unfold comb.setVersionVariant|];
    rewrite ?length_insert, Hf, Hs; reflexivity.
Qed.

(** With the flag on, the result is the result without the flag, with the
    marker set. *)
Lemma CustomTimeStampedUUID_marker u r n t res id :
  comb.CustomTimeStampedUUID u r n t res true = Return (id, None) ->
  exists pre,
    comb.CustomTimeStampedUUID u r n t res false = Return (pre, None)
    /\ id = comb.setVersionVariant pre.
Proof.
  rewrite !CustomTimeStampedUUID_steps.
  destruct (comb.SetTimeStamp u uuid.Nil n t res) as [[id1 [e|]]|p];
    try done.
  cbn [mbind outcome_bind].
  destruct (fillRandom r id1 n) as [[id2 [e|]]|p]; try done.
  cbn [mbind outcome_bind finish]. intros [= <-]. by exists id2.
Qed.

(** C7, as the code has it.  With the flag on, a call that returns without
    an error returns the identifier it returns without the flag, except
    that the high nibble of byte 6 is 6 and the top three bits of byte 8 are
    [111] (the top two, then, [11]): the low nibble of byte 6, the low five
    bits of byte 8 and every other byte are as they are without the flag. *)
Theorem marker_bits
    (u : float64.t -> Z) (r : io.Reader) (nBytes t res : Z) (id : uuid.UUID) :
  comb.CustomTimeStampedUUID u r nBytes t res true = Return (id, None) ->
  exists pre : uuid.UUID,
    comb.CustomTimeStampedUUID u r nBytes t res false = Return (pre, None)
    /\ Z.shiftr (id !!! 6%nat) 4 = 6
    /\ Z.shiftr (id !!! 8%nat) 6 = 3
    /\ Z.shiftr (id !!! 8%nat) 5 = 7
    /\ Z.land (id !!! 6%nat) 0x0f = Z.land (pre !!! 6%nat) 0x0f
    /\ Z.land (id !!! 8%nat) 0x1f = Z.land (pre !!! 8%nat) 0x1f
    /\ forall i : nat, i <> 6%nat -> i <> 8%nat -> id !! i = pre !! i.
Proof.
  intros Hid. destruct (CustomTimeStampedUUID_marker _ _ _ _ _ _ Hid)
    as (pre & Hpre & ->).
  exists pre. split; [done|].
  destruct (setVersionVariant_bytes pre) as (H6 & H8 & Hrest).
  { by eapply CustomTimeStampedUUID_wf. }
  rewrite H6, H8. repeat split.
  - apply version_nibble.
  - apply variant_two_bits.
  - apply variant_three_bits.
  - apply version_keeps_low_nibble.
  - apply variant_keeps_low_five.
  - done.
Qed.

(** C7, as stated, fails for a random fill of zeros: the marker sets bit 5
    of byte 8, one of the six bits below the top two. *)
Lemma marker_sets_bit5 :
  ~ marker_touches_two_variant_bits float64.saturating
      [(replicate 10 0, None)] 6 256000 100000.
Proof.
  intros H. specialize (H _ _ eq_refl eq_refl).
  destruct H as (_ & _ & _ & H). vm_compute in H. discriminate H.
Qed.

(** ** The two regions of the identifier *)

Lemma fillRandom_ok r (id : uuid.UUID) n :
  uuid.wf id -> 1 <= n <= 16 ->
  fillRandom r id n
  = let '(b, _, err) := io.ReadFull r (take (Z.to_nat (16 - n)) id) in
    Return (b ++ drop (Z.to_nat (16 - n)) id, err).
Proof.
  intros Hid Hn. unfold uuid.wf in Hid. unfold fillRandom.
  assert (len id = 16) as Hlen by (unfold len; lia). rewrite Hlen.
  rewrite (int64_id (16 - n)) by (unfold int64_range; lia).
  unfold slice_to. rewrite Hlen. by case_decide; [|lia].
Qed.

(** C8.  [SetTimeStamp] returns the identifier with its leading
    [16 - nBytes] bytes as they were, so that it commutes with filling
    those bytes from a reader: either order gives the same buffer (and the
    same error of the reader). *)
Theorem SetTimeStamp_frame
    (u : float64.t -> Z) (r : io.Reader) (id : uuid.UUID) (nBytes t res : Z) :
  uuid.wf id -> 1 <= nBytes <= 16 -> res <> 0 ->
  exists id1 : uuid.UUID,
    comb.SetTimeStamp u id nBytes t res = Return (id1, None)
    /\ uuid.wf id1
    /\ take (Z.to_nat (16 - nBytes)) id1 = take (Z.to_nat (16 - nBytes)) id
    /\ exists (id2 id3 : uuid.UUID) (e : option io.error),
         fillRandom r id nBytes = Return (id2, e)
         /\ comb.SetTimeStamp u id2 nBytes t res = Return (id3, None)
         /\ fillRandom r id1 nBytes = Return (id3, e).
Proof.
  intros Hid Hn Hres. unfold uuid.wf in Hid.
  set (k := Z.to_nat (16 - nBytes)).
  set (ts := shifted nBytes
               (Z.land (comb.storedUnits u t (ticksPerUnit res))
                       (comb.timeMask nBytes))).
  assert (length (take k id) = k) as Hk by (rewrite length_take; lia).
  assert (length ts = Z.to_nat nBytes) as Hts by apply shifted_length.
  assert (uuid.wf (take k id ++ ts)) as Hwf1.
  { unfold uuid.wf. rewrite length_app, Hk, Hts. lia. }
  exists (take k id ++ ts). split; [by apply SetTimeStamp_ok|].
  split; [done|]. split; [by rewrite take_app_length'|].
  rewrite !fillRandom_ok by done. fold k.
  rewrite (take_app_length' (take k id) ts k (eq_sym Hk)).
  destruct (io.ReadFull r (take k id)) as [[b m] e] eqn:Hr.
  apply ReadFull_length in Hr. rewrite Hk in Hr.
  exists (b ++ drop k id), (b ++ ts), e. split; [done|].
  assert (uuid.wf (b ++ drop k id)) as Hwf2.
  { unfold uuid.wf. rewrite length_app, Hr, length_drop. lia. }
  split.
  - rewrite SetTimeStamp_ok by done. fold k.
    by rewrite (take_app_length' b (drop k id) k (eq_sym Hr)).
  - by rewrite (drop_app_length' (take k id) ts k (eq_sym Hk)).
Qed.

(** ** The width of the decoder *)

(** More than 8 bytes asked for, or a slice of more than 8 bytes: the
    decoder panics. *)
Lemma bytesToUint64_panics b n :
  int64_range n /\ 8 < n \/ 8 < len b -> panics (comb.bytesToUint64 b n).
Proof.
  intros H. unfold comb.bytesToUint64, index.
  destruct (decide (0 <= int64 (n - 1) < len b)) as [Hi|]; [|done].
  cbn [mbind outcome_bind].
  destruct (decide (len b > 8)) as [|Hlen]; [done|].
  destruct H as [[Hn Hgt]|Hb]; [|lia].
  unfold int64_range in Hn.
  rewrite (int64_id (n - 1)) in Hi by (unfold int64_range; lia). lia.
Qed.

(** Through [ReadCustomTimeStamp] the explicit panic of the decoder is out
    of reach for a width of at most 8. *)
Lemma ReadCustomTimeStamp_not_tooLarge (id : uuid.UUID) n :
  uuid.wf id -> int64_range n -> n <= 8 ->
  comb.ReadCustomTimeStamp id n <> Panics tooLarge.
Proof.
  intros Hid Hn Hle. unfold uuid.wf in Hid. unfold int64_range in Hn.
  unfold comb.ReadCustomTimeStamp, slice_from.
  assert (len id = 16) as Hlen by (unfold len; lia). rewrite Hlen.
  destruct (decide (0 <= int64 (16 - n) <= 16)) as [Hlo|]; [|done].
  cbn [mbind outcome_bind].
  assert (int64 (16 - n) = 16 - n) as Heq.
  { destruct (decide (16 - n < 2 ^ 63)).
    - apply int64_id. unfold int64_range. lia.
    - pose proof (int64_wraps_negative (16 - n)). lia. }
  rewrite Heq in *.
  assert (len (drop (Z.to_nat (16 - n)) id) = n) as Hb.
  { unfold len. rewrite length_drop. lia. }
  destruct (decide (n = 0)) as [->|Hn0].
  - unfold comb.bytesToUint64, index. change (int64 (0 - 1)) with (-1).
    by destruct (decide (0 <= -1 < _)); [lia|].
  - by rewrite bytesToUint64_ok by lia.
Qed.

(** C9.  The decoder panics when asked for more than 8 bytes, or given a
    slice of more than 8 bytes, and so returns no value then; through
    [ReadCustomTimeStamp] with a width of at most 8 its explicit panic is
    out of reach, and for a width of 1..8 it returns. *)
Theorem bytesToUint64_width
    (b : list Z) (n : Z) (id : uuid.UUID) (nBytes : Z) :
  int64_range n /\ 8 < n \/ 8 < len b ->
  uuid.wf id -> int64_range nBytes -> nBytes <= 8 ->
  panics (comb.bytesToUint64 b n)
  /\ (forall v, comb.bytesToUint64 b n <> Return v)
  /\ comb.ReadCustomTimeStamp id nBytes <> Panics tooLarge
  /\ (1 <= nBytes -> exists v, comb.ReadCustomTimeStamp id nBytes = Return v).
Proof.
  intros Hwide Hid HnBytes Hle.
  pose proof (bytesToUint64_panics b n Hwide) as Hp.
  split; [done|]. split.
  { intros v Hv. by rewrite Hv in Hp. }
  split; [by apply ReadCustomTimeStamp_not_tooLarge|].
  intros Hge. unfold uuid.wf in Hid.
  unfold comb.ReadCustomTimeStamp, slice_from.
  assert (len id = 16) as Hlen by (unfold len; lia). rewrite Hlen.
  rewrite (int64_id (16 - nBytes)) by (unfold int64_range; lia).
  destruct (decide (0 <= 16 - nBytes <= 16)); [|lia].
  cbn [mbind outcome_bind].
  rewrite bytesToUint64_ok; [by eexists| |];
    unfold len; rewrite length_drop; lia.
Qed.

(** ** The encoder, byte by byte *)

Lemma shifted_bytes n v : Forall is_byte (shifted n v).
Proof.
  unfold shifted. apply Forall_fmap, Forall_forall. intros i _.
  unfold is_byte, byte. simpl. apply Z.mod_pos_bound. lia.
Qed.

(** From width 7 on, the shift counts of the leading bytes are 64 or more:
    those bytes are zero, and the last six are the six of width 6. *)
Lemma shifted_wide n v :
  6 <= n -> shifted n v = replicate (Z.to_nat (n - 6)) 0 ++ shifted 6 v.
Proof.
  intros Hn. unfold shifted.
  replace n with ((n - 6) + 6) at 1 by lia.
  rewrite seqZ_app, fmap_app by lia. f_equal.
  - apply list_eq. intros j. rewrite list_lookup_fmap.
    destruct (decide (Z.of_nat j < n - 6)) as [Hj|Hj].
    + rewrite lookup_seqZ_lt, lookup_replicate_2 by lia. simpl. f_equal.
      unfold uint64_shr. rewrite decide_True; [done|].
      change 64 with (2 ^ 6). apply Z.pow_le_mono_r; lia.
    + rewrite lookup_seqZ_ge by lia. symmetry. apply lookup_replicate_None. lia.
  - replace (0 + (n - 6)) with (n - 6 + 0) by lia.
    rewrite <- (fmap_add_seqZ (n - 6) 0 6), <- list_fmap_compose.
    apply list_fmap_ext. intros i x Hx. apply lookup_seqZ in Hx as [-> Hi].
    simpl. do 3 f_equal. lia.
Qed.

Lemma storedBits_spec p :
  1 <= p <= 23 \/ 32 <= p <= 39 -> Z.testbit storedBits p = true.
Proof.
  intros Hp.
  change storedBits
    with (Z.lor (Z.shiftl (Z.ones 23) 1) (Z.shiftl (Z.ones 8) 32)).
  rewrite Z.lor_spec, !Z.shiftl_spec by lia.
  destruct Hp as [Hp|Hp].
  - by rewrite (Z.ones_spec_low 23) by lia.
  - rewrite (Z.ones_spec_low 8) by lia. apply orb_true_r.
Qed.

(** A byte taken at a shift of 1, 2, 4, 8, 16 or 32 lies within
    [storedBits]. *)
Lemma byte_shiftr_storedBits v v' k :
  Z.land v storedBits = Z.land v' storedBits -> 0 <= k <= 5 ->
  byte (Z.shiftr v (2 ^ k)) = byte (Z.shiftr v' (2 ^ k)).
Proof.
  intros Hv Hk. unfold byte. apply Z.bits_inj'. intros j Hj.
  destruct (decide (j < 8)) as [Hlt|Hge].
  2:{ by rewrite !Z.mod_pow2_bits_high by lia. }
  rewrite !Z.mod_pow2_bits_low, !Z.shiftr_spec by lia.
  assert (Z.testbit storedBits (j + 2 ^ k) = true) as Hm.
  { apply storedBits_spec. revert j Hj Hlt.
    apply (width_cases (fun k => forall j, 0 <= j -> j < 8 ->
             1 <= j + 2 ^ k <= 23 \/ 32 <= j + 2 ^ k <= 39) 0 6 k); [lia|].
    change (seqZ 0 6) with [0; 1; 2; 3; 4; 5].
    repeat (apply Forall_cons_2; [intros j ? ?; cbn; lia|]). constructor. }
  apply (f_equal (fun x => Z.testbit x (j + 2 ^ k))) in Hv.
  by rewrite !Z.land_spec, Hm, !andb_true_r in Hv.
Qed.

(** X1.  [uint64ToBytes] at a width from 1 to 63 that the slice can hold
    returns; it keeps the length of the slice, writes the first [n] bytes
    (byte [i] is [byte(v >> 2^(n-1-i))]) and leaves the bytes after them as
    they were. *)
Theorem uint64ToBytes_writes (b : list Z) (n v : Z) :
  1 <= n <= 63 -> n <= len b ->
  exists b',
    comb.uint64ToBytes b n v = Return b'
    /\ length b' = length b
    /\ take (Z.to_nat n) b' = shifted n v
    /\ drop (Z.to_nat n) b' = drop (Z.to_nat n) b
    /\ Forall is_byte (take (Z.to_nat n) b').
Proof.
  intros Hn Hb. exists (shifted n v ++ drop (Z.to_nat n) b).
  assert (length (shifted n v) = Z.to_nat n) as Hl by apply shifted_length.
  split; [by apply uint64ToBytes_spec|].
  rewrite length_app, length_drop, take_app_length', drop_app_length' by done.
  repeat split; [unfold len in Hb; lia|apply shifted_bytes].
Qed.

(** The two readings of the encoder agree: the one with the slice in view
    ends as the other does, with the bytes the other returns. *)
Lemma for_each_mem_agrees {S : Type} (body : Z -> S -> outcome S) :
  forall (l : list Z) (s : S),
    for_each body l s
    = match for_each_mem body l s with
      | (s', None) => Return s'
      | (_, Some p) => Panics p
      end.
Proof.
  induction l as [|i l IH]; intros s; [done|].
  cbn [for_each for_each_mem]. destruct (body i s) as [s'|p]; [|done].
  cbn [mbind outcome_bind]. apply IH.
Qed.

Lemma uint64ToBytes_mem_agrees (b : list Z) (n v : Z) :
  comb.uint64ToBytes b n v
  = match comb.uint64ToBytes_mem b n v with
    | (b', None) => Return b'
    | (_, Some p) => Panics p
    end.
Proof.
  unfold comb.uint64ToBytes, comb.uint64ToBytes_mem, for_range.
  destruct (index b (int64 (n - 1))) as [x|p]; [|done].
  cbn [mbind outcome_bind]. apply for_each_mem_agrees.
Qed.

(** X2.  The early bounds check [b[n-1]]: a width below 1, or above the
    length of the slice, panics with an index out of range before any byte
    is written: the slice is then as it was before the call. *)
Theorem uint64ToBytes_bounds (b : list Z) (n v : Z) :
  int64_range n -> int64_range (len b) -> n < 1 \/ len b < n ->
  comb.uint64ToBytes b n v = Panics IndexOutOfRange
  /\ comb.uint64ToBytes_mem b n v = (b, Some IndexOutOfRange).
Proof.
  unfold int64_range. intros Hn Hb Hout.
  assert (index b (int64 (n - 1)) = Panics IndexOutOfRange) as Hi.
  { unfold index. destruct (decide (n = - 2 ^ 63)) as [->|Hmin].
    - change (int64 (- 2 ^ 63 - 1)) with (2 ^ 63 - 1).
      by rewrite decide_False by lia.
    - rewrite (int64_id (n - 1)) by (unfold int64_range; lia).
      rewrite decide_False; [done|]. unfold len in *. lia. }
  unfold comb.uint64ToBytes, comb.uint64ToBytes_mem. by rewrite Hi.
Qed.

(** X3.  At a width from 6 to 63 the encoder writes [n - 6] zero bytes and
    then the six bytes of width 6: a wider time stamp holds no more of the
    value. *)
Theorem uint64ToBytes_wide (b : list Z) (n v : Z) :
  6 <= n <= 63 -> n <= len b ->
  comb.uint64ToBytes b n v
  = Return (replicate (Z.to_nat (n - 6)) 0 ++ shifted 6 v
              ++ drop (Z.to_nat n) b).
Proof.
  intros Hn Hb. rewrite uint64ToBytes_spec by lia.
  by rewrite shifted_wide, <- app_assoc by lia.
Qed.

(** X4.  The bytes written depend on bits 1 to 23 and 32 to 39 of the value
    only: two values that agree there are encoded alike, at every width.
    Bit 0, bits 24 to 31 and bits 40 to 63 are never stored. *)
Theorem uint64ToBytes_stored_bits (b : list Z) (n v v' : Z) :
  1 <= n <= 63 -> n <= len b ->
  Z.land v storedBits = Z.land v' storedBits ->
  comb.uint64ToBytes b n v = comb.uint64ToBytes b n v'.
Proof.
  intros Hn Hb Hv. rewrite !uint64ToBytes_spec by done. do 2 f_equal.
  unfold shifted. apply list_fmap_ext. intros i x Hx.
  apply lookup_seqZ in Hx as [-> Hi]. unfold uint64_shr.
  destruct (decide (64 <= 2 ^ (n - 1 - (0 + Z.of_nat i)))) as [|Hs]; [done|].
  apply byte_shiftr_storedBits; [done|].
  destruct (decide (6 <= n - 1 - (0 + Z.of_nat i))) as [Hk|Hk]; [|lia].
  exfalso. apply Hs. change 64 with (2 ^ 6). apply Z.pow_le_mono_r; lia.
Qed.

(** ** The decoder and its two checks *)

Lemma pow256 k : 0 <= k -> 256 ^ k = 2 ^ (8 * k).
Proof. intros Hk. by rewrite Z.pow_mul_r by lia. Qed.

(** The bounds check comes first. *)
Lemma bytesToUint64_index_panic (b : list Z) (n : Z) :
  int64_range n -> int64_range (len b) -> n < 1 \/ len b < n ->
  comb.bytesToUint64 b n = Panics IndexOutOfRange.
Proof.
  unfold int64_range. intros Hn Hlen Hout.
  unfold comb.bytesToUint64, index. cbv zeta.
  destruct (decide (n = - 2 ^ 63)) as [->|Hmin].
  - change (int64 (- 2 ^ 63 - 1)) with (2 ^ 63 - 1).
    destruct (decide (0 <= 2 ^ 63 - 1 < len b)) as [?|_]; [|done]. lia.
  - rewrite (int64_id (n - 1)) by (unfold int64_range; lia).
    by destruct (decide (0 <= n - 1 < len b)) as [?|_]; [lia|].
Qed.

(** The length check looks at the slice, not at the width. *)
Lemma bytesToUint64_tooLarge (b : list Z) (n : Z) :
  int64_range (len b) -> 1 <= n <= len b -> 8 < len b ->
  comb.bytesToUint64 b n = Panics tooLarge.
Proof.
  unfold int64_range. intros Hr Hn Hb.
  unfold comb.bytesToUint64, index. cbv zeta.
  rewrite (int64_id (n - 1)) by (unfold int64_range; lia).
  destruct (decide (0 <= n - 1 < len b)) as [_|?]; [|lia].
  cbn [mbind outcome_bind].
  by destruct (decide (len b > 8)) as [_|?]; [|lia].
Qed.

(** X5.  The decoder reads the first [n] bytes of a slice of at most eight
    as a big-endian number, below [2^(8n)]; the bytes after them are not
    looked at. *)
Theorem bytesToUint64_decodes (b : list Z) (n : Z) :
  1 <= n <= len b -> len b <= 8 -> Forall is_byte b ->
  comb.bytesToUint64 b n = Return (spec.fromBigEndian (take (Z.to_nat n) b))
  /\ 0 <= spec.fromBigEndian (take (Z.to_nat n) b) < 2 ^ (8 * n).
Proof.
  intros Hn Hb Hbytes. split; [by apply bytesToUint64_bigEndian|].
  rewrite <- pow256 by lia.
  assert (len (take (Z.to_nat n) b) = n) as Hl
    by (unfold len in *; rewrite length_take; lia).
  rewrite <- Hl at 3. by apply fromBigEndian_bound, Forall_take.
Qed.

(** X6.  Outside that range the decoder panics, and the bounds check wins:
    a width below 1 or above the length of the slice is an index out of
    range, also when the slice is longer than eight bytes; a width the slice
    can hold is refused with the explicit panic when the slice is longer than
    eight bytes, however small the width. *)
Theorem bytesToUint64_refuses (b : list Z) (n : Z) :
  int64_range n -> int64_range (len b) ->
  ~ (1 <= n <= len b /\ len b <= 8) ->
  comb.bytesToUint64 b n
  = Panics (if decide (1 <= n <= len b) then tooLarge else IndexOutOfRange).
Proof.
  intros Hn Hlen Hout. destruct (decide (1 <= n <= len b)) as [Hin|Hin].
  - apply bytesToUint64_tooLarge; [done|lia..].
  - apply bytesToUint64_index_panic; [done|done|lia].
Qed.

(** ** The reference helpers of the tests *)

Lemma putBytesSafe_bigEndian (b : list Z) (n v : Z) :
  6 <= len b ->
  comb_test.putBytesSafe b n v = Return (spec.bigEndian 6 v ++ drop 6 b).
Proof.
  intros Hb.
  destruct b as [|b0 [|b1 [|b2 [|b3 [|b4 [|b5 rest]]]]]];
    try (unfold len in Hb; simpl in Hb; lia).
  unfold comb_test.putBytesSafe, index, store.
  rewrite decide_True by (unfold len; simpl; lia). cbn [mbind outcome_bind].
  repeat (rewrite decide_True by (unfold len; simpl; lia);
          cbn [mbind outcome_bind Z.to_nat Pos.to_nat Pos.iter_op Nat.add
               insert list_insert]).
  reflexivity.
Qed.

Lemma uint64_shl_0 x : uint64_shl (uint64 x) 0 = uint64 x.
Proof.
  unfold uint64_shl, uint64. rewrite decide_False by lia.
  by rewrite Z.shiftl_0_r, Z.mod_mod by lia.
Qed.

(** On eight bytes the helper and the decoder are the same function. *)
Lemma fillUint64Safe_bytesToUint64 (b : list Z) :
  len b = 8 -> comb_test.fillUint64Safe b = comb.bytesToUint64 b 8.
Proof.
  intros Hb. rewrite bytesToUint64_ok by lia.
  unfold comb_test.fillUint64Safe, index.
  rewrite decide_True by lia. cbn [mbind outcome_bind]. f_equal.
  change (seqZ 0 8) with [0; 1; 2; 3; 4; 5; 6; 7]. cbn [foldl].
  change (0 * 8) with 0. rewrite uint64_shl_0. reflexivity.
Qed.

(** X7.  [putBytesSafe] ignores its width argument and writes the six
    big-endian bytes of the value; the decoder reads them back as the value
    modulo [2^48].  The helper of the tests, unlike the encoder, is an
    inverse of the decoder. *)
Theorem putBytesSafe_roundtrip (b : list Z) (n v : Z) :
  len b = 6 ->
  comb_test.putBytesSafe b n v = Return (spec.bigEndian 6 v)
  /\ (comb_test.putBytesSafe b n v ≫= fun b' => comb.bytesToUint64 b' 6)
     = Return (v mod 2 ^ 48).
Proof.
  intros Hb. rewrite putBytesSafe_bigEndian by lia.
  rewrite drop_ge, app_nil_r by (unfold len in Hb; lia). split; [done|].
  cbn [mbind outcome_bind].
  rewrite bytesToUint64_bigEndian; [|done|done|apply bigEndian_bytes].
  f_equal. rewrite take_ge by done.
  apply (fromBigEndian_bigEndian 6).
Qed.

(** X8.  What [TestBytesToUint64] compares, for any six bytes and not only
    for [ff ff ff ff ff ff]: [fillUint64Safe] on the bytes behind two zero
    bytes and the decoder at width 6 both return their big-endian value. *)
Theorem fillUint64Safe_decodes (b : list Z) :
  len b = 6 -> Forall is_byte b ->
  comb_test.fillUint64Safe ([0; 0] ++ b) = Return (spec.fromBigEndian b)
  /\ comb.bytesToUint64 b 6 = Return (spec.fromBigEndian b).
Proof.
  intros Hb Hbytes. split.
  - rewrite fillUint64Safe_bytesToUint64
      by (unfold len in *; rewrite length_app; simpl; lia).
    assert (Forall is_byte ([0; 0] ++ b)) as Hall.
    { apply Forall_app. split; [|done]. repeat constructor; done. }
    rewrite bytesToUint64_bigEndian;
      [|unfold len in *; rewrite length_app; simpl; lia
       |unfold len in *; rewrite length_app; simpl; lia|done].
    f_equal.
    rewrite take_ge by (unfold len in *; rewrite length_app; simpl; lia).
    simpl. rewrite !fromBigEndian_cons. lia.
  - rewrite bytesToUint64_bigEndian by (done || lia).
    by rewrite take_ge by (unfold len in *; lia).
Qed.

(** ** Reading a time stamp *)

Lemma ReadCustomTimeStamp_ok (id : uuid.UUID) (n : Z) :
  uuid.wf id -> 1 <= n <= 8 ->
  Forall is_byte (drop (Z.to_nat (16 - n)) id) ->
  comb.ReadCustomTimeStamp id n
  = Return (spec.fromBigEndian (drop (Z.to_nat (16 - n)) id)).
Proof.
  unfold uuid.wf. intros Hid Hn Hbytes.
  assert (len (drop (Z.to_nat (16 - n)) id) = n) as Hl
    by (unfold len; rewrite length_drop; lia).
  unfold comb.ReadCustomTimeStamp, slice_from, len. rewrite Hid.
  rewrite int64_id by (unfold int64_range; lia).
  rewrite decide_True by lia. cbn [mbind outcome_bind].
  change (Z.of_nat 16) with 16.
  rewrite bytesToUint64_bigEndian by (done || lia).
  by rewrite take_ge by (unfold len in Hl; lia).
Qed.

(** X9.  [ReadCustomTimeStamp] at a width from 1 to 8 returns the
    big-endian value of the last [nBytes] bytes of the identifier, a number
    below [2^(8*nBytes)]; the bytes before them play no part. *)
Theorem ReadCustomTimeStamp_value (id : uuid.UUID) (n : Z) :
  uuid.wf id -> 1 <= n <= 8 ->
  Forall is_byte (drop (Z.to_nat (16 - n)) id) ->
  comb.ReadCustomTimeStamp id n
  = Return (spec.fromBigEndian (drop (Z.to_nat (16 - n)) id))
  /\ 0 <= spec.fromBigEndian (drop (Z.to_nat (16 - n)) id) < 2 ^ (8 * n).
Proof.
  intros Hid Hn Hbytes. split; [by apply ReadCustomTimeStamp_ok|].
  assert (len (drop (Z.to_nat (16 - n)) id) = n) as Hl
    by (unfold uuid.wf in Hid; unfold len; rewrite length_drop; lia).
  rewrite <- pow256 by lia. rewrite <- Hl at 3.
  by apply fromBigEndian_bound.
Qed.

(** X10.  At any other width [ReadCustomTimeStamp] panics: slicing the
    identifier fails below 0 and above 16, the bounds check of the decoder
    fails at 0, and from 9 to 16 the decoder refuses the slice as larger than
    a [uint64]. *)
Theorem ReadCustomTimeStamp_refuses (id : uuid.UUID) (n : Z) :
  uuid.wf id -> int64_range n -> n < 1 \/ 8 < n ->
  comb.ReadCustomTimeStamp id n
  = Panics (if decide (n < 0 \/ 16 < n) then SliceBoundsOutOfRange
            else if decide (n = 0) then IndexOutOfRange else tooLarge).
Proof.
  unfold uuid.wf, int64_range. intros Hid Hn Hout.
  unfold comb.ReadCustomTimeStamp, slice_from, len. rewrite Hid.
  change (Z.of_nat 16) with 16.
  destruct (decide (n < 0 \/ 16 < n)) as [Hs|Hs].
  - destruct (decide (0 <= int64 (16 - n) <= 16)) as [Hr|_]; [|done].
    exfalso. destruct (decide (2 ^ 63 <= 16 - n)) as [Hbig|Hsmall].
    + pose proof (int64_wraps_negative (16 - n)). lia.
    + rewrite int64_id in Hr by (unfold int64_range; lia). lia.
  - rewrite int64_id by (unfold int64_range; lia).
    rewrite decide_True by lia. cbn [mbind outcome_bind].
    assert (len (drop (Z.to_nat (16 - n)) id) = n) as Hl
      by (unfold len; rewrite length_drop; lia).
    destruct (decide (n = 0)) as [->|Hn0].
    + apply bytesToUint64_index_panic; unfold int64_range; lia.
    + apply bytesToUint64_tooLarge; [unfold int64_range|..]; lia.
Qed.

(** ** Setting a time stamp *)

Lemma stamp_length u n t res : length (stamp u n t res) = Z.to_nat n.
Proof. apply shifted_length. Qed.

Lemma SetTimeStamp_wf u (id : uuid.UUID) n t res :
  uuid.wf id -> 1 <= n <= 16 ->
  uuid.wf (take (Z.to_nat (16 - n)) id ++ stamp u n t res).
Proof.
  unfold uuid.wf. intros Hid Hn.
  rewrite length_app, length_take, stamp_length. lia.
Qed.

(** With a zero divisor the quotient is [+Inf], or NaN for [0/0]: its
    conversion is the implementation's. *)
Lemma storedUnits_zero_divisor u t :
  0 <= t < 2 ^ 53 ->
  comb.storedUnits u t 0
  = uint64 (u (if decide (t = 0) then S754_nan else S754_infinity false)).
Proof.
  intros Ht. unfold comb.storedUnits.
  destruct t as [|p|p]; [done| |lia].
  destruct (of_int_pos p) as (m & -> & _); [lia|].
  by rewrite decide_False by done.
Qed.

(** X11.  A second [SetTimeStamp] at the same width replaces the first:
    the result is the one of the second call on the original identifier. *)
Theorem SetTimeStamp_overwrites
    (u : float64.t -> Z) (id : uuid.UUID) (n t res t' res' : Z) :
  uuid.wf id -> 1 <= n <= 16 -> res <> 0 -> res' <> 0 ->
  ('(id1, _) ← comb.SetTimeStamp u id n t res;
   comb.SetTimeStamp u id1 n t' res')
  = comb.SetTimeStamp u id n t' res'.
Proof.
  intros Hid Hn Hres Hres'. rewrite !SetTimeStamp_ok by done.
  cbn [mbind outcome_bind]. fold (stamp u n t res).
  rewrite SetTimeStamp_ok by (done || by apply SetTimeStamp_wf).
  rewrite take_app_length'; [done|].
  unfold uuid.wf in Hid. rewrite length_take. lia.
Qed.

(** X12.  At the resolution [NewTimeStampedUUID] passes, a tenth of a
    millisecond, and for a time below [2^53] ticks, the binary64 arithmetic
    of [SetTimeStamp] is exact: the value handed to the encoder is the time
    divided by 1000, rounded half up, modulo [2^(8*nBytes)]. *)
Theorem SetTimeStamp_default_resolution
    (u : float64.t -> Z) (id : uuid.UUID) (n t : Z) :
  uuid.wf id -> 1 <= n <= 8 -> 0 <= t < 2 ^ 53 ->
  comb.SetTimeStamp u id n t (Z.quot time.Millisecond 10)
  = Return (take (Z.to_nat (16 - n)) id
              ++ shifted n (((2 * t + 1000) / 2000) mod 2 ^ (8 * n)),
            None).
Proof.
  intros Hid Hn Ht. rewrite SetTimeStamp_ok by (done || lia).
  change (ticksPerUnit (Z.quot time.Millisecond 10)) with 1000.
  rewrite land_timeMask by (done || apply storedUnits_range).
  by rewrite storedUnits_1000.
Qed.

(** X13.  A resolution above a tenth of a second makes the divisor
    [time.Second / 10 / res] zero.  Nothing panics: the quotient is [+Inf]
    (NaN at time 0), and the count stored is whatever the implementation
    converts that to. *)
Theorem SetTimeStamp_coarse_resolution
    (u : float64.t -> Z) (id : uuid.UUID) (n t res : Z) :
  uuid.wf id -> 1 <= n <= 16 -> 0 <= t < 2 ^ 53 -> 100000000 < res ->
  comb.SetTimeStamp u id n t res
  = Return (take (Z.to_nat (16 - n)) id
              ++ shifted n
                   (Z.land
                      (uint64 (u (if decide (t = 0) then S754_nan
                                  else S754_infinity false)))
                      (comb.timeMask n)),
            None).
Proof.
  intros Hid Hn Ht Hres. rewrite SetTimeStamp_ok by (done || lia).
  assert (ticksPerUnit res = 0) as -> by (apply Z.quot_small; lia).
  by rewrite storedUnits_zero_divisor.
Qed.


(** ** The reader *)

(** What [io.ReadAtLeast] makes of a reader that never fails. *)
Lemma ReadAtLeast_loop_chunks ds : forall (buf : list Z) (n : nat),
  (n <= length buf)%nat ->
  io.ReadAtLeast_loop (chunks ds) buf (length buf) n
  = if decide (length buf - n <= length (concat ds))%nat
    then (take n buf ++ take (length buf - n) (concat ds), length buf, None)
    else (take n buf ++ concat ds ++ drop (n + length (concat ds)) buf,
          (n + length (concat ds))%nat, Some io.EOF).
Proof.
  induction ds as [|d ds IH]; intros buf n Hn; cbn [chunks fmap list_fmap concat io.ReadAtLeast_loop].
  - destruct (decide (n < length buf)%nat).
    + rewrite decide_False by (simpl; lia). simpl.
      by rewrite Nat.add_0_r, take_drop.
    + assert (n = length buf) as -> by lia.
      rewrite decide_True by (simpl; lia).
      by rewrite Nat.sub_diag, take_0, app_nil_r, take_ge by lia.
  - destruct (decide (n < length buf)%nat) as [Hlt|Hge].
    2:{ assert (n = length buf) as -> by lia.
        rewrite decide_True by lia.
        by rewrite Nat.sub_diag, take_0, app_nil_r, take_ge by lia. }
    set (chunk := take (length buf - n) d).
    set (buf' := take n buf ++ chunk ++ drop (n + length chunk) buf).
    assert (length chunk = Nat.min (length buf - n) (length d)) as Hc
      by (unfold chunk; apply length_take).
    assert (length buf' = length buf) as Hl.
    { unfold buf'. rewrite !length_app, length_take, length_drop. lia. }
    fold (chunks ds). rewrite <- Hl at 1.
    rewrite IH by lia. rewrite Hl, length_app.
    assert (take (n + length chunk) buf' = take n buf ++ chunk) as Htake.
    { unfold buf'. rewrite app_assoc. apply take_app_length'.
      rewrite length_app, length_take. lia. }
    destruct (decide (length d <= length buf - n)%nat) as [Hd|Hd].
    + (* the whole chunk fits *)
      assert (chunk = d) as Hcd by (unfold chunk; apply take_ge; lia).
      rewrite Htake, Hcd in *.
      destruct (decide (length buf - (n + length d) <= length (concat ds))%nat).
      * rewrite decide_True by lia. rewrite <- app_assoc. do 3 f_equal.
        rewrite take_app_ge by lia. do 2 f_equal. lia.
      * rewrite decide_False by lia. rewrite <- !app_assoc.
        assert (drop (n + length d + length (concat ds)) buf'
                = drop (n + (length d + length (concat ds))) buf) as ->.
        { unfold buf'. rewrite Hcd, app_assoc.
          rewrite drop_app_ge by (rewrite length_app, length_take; lia).
          rewrite length_app, length_take, drop_drop. f_equal. lia. }
        by rewrite Nat.add_assoc.
    + (* the chunk is cut to the room left *)
      assert (length chunk = (length buf - n)%nat) as Hfull by lia.
      rewrite decide_True by lia. rewrite decide_True by lia.
      rewrite Htake. replace (length buf - (n + length chunk))%nat with 0%nat by lia.
      rewrite take_0, app_nil_r. do 3 f_equal.
      unfold chunk. rewrite take_app_le by lia. done.
Qed.

Lemma ReadFull_chunks ds (buf : list Z) :
  io.ReadFull (chunks ds) buf
  = if decide (length buf <= length (concat ds))%nat
    then (take (length buf) (concat ds), length buf, None)
    else (concat ds ++ drop (length (concat ds)) buf, length (concat ds),
          Some (if decide (concat ds = []) then io.EOF
                else io.ErrUnexpectedEOF)).
Proof.
  unfold io.ReadFull, io.ReadAtLeast. rewrite decide_False by lia.
  rewrite ReadAtLeast_loop_chunks by lia. rewrite Nat.sub_0_r, take_0.
  destruct (decide (length buf <= length (concat ds))%nat) as [Hle|Hgt].
  - by rewrite decide_True by lia.
  - cbn [app Nat.add]. rewrite decide_False by lia.
    destruct (concat ds) as [|x data] eqn:Hdata.
    + by rewrite decide_True by done.
    + rewrite (decide_False (P := x :: data = [])) by done.
      rewrite bool_decide_eq_true_2 by (simpl; lia).
      by rewrite bool_decide_eq_true_2 by done.
Qed.


(** ** The constructor in one piece *)

Lemma Nil_take k : take k uuid.Nil = replicate (Nat.min k 16) 0.
Proof. unfold uuid.Nil. by rewrite take_replicate. Qed.

(** For a width the array can hold, the constructor reads [16 - nBytes]
    bytes into a zeroed buffer, sets the time stamp behind them, and
    finishes. *)
Lemma CustomTimeStampedUUID_ok u r n t res rfc :
  1 <= n <= 16 -> res <> 0 ->
  comb.CustomTimeStampedUUID u r n t res rfc
  = let '(b, _, err) := io.ReadFull r (replicate (Z.to_nat (16 - n)) 0) in
    finish rfc (b ++ stamp u n t res, err).
Proof.
  intros Hn Hres. rewrite CustomTimeStampedUUID_steps.
  rewrite SetTimeStamp_ok by done. cbn [mbind outcome_bind].
  fold (stamp u n t res).
  assert (length (take (Z.to_nat (16 - n)) uuid.Nil) = Z.to_nat (16 - n))
    as Hk.
  { rewrite length_take. change (length uuid.Nil) with 16%nat. lia. }
  rewrite fillRandom_ok;
    [|unfold uuid.wf; rewrite length_app, Hk, stamp_length; lia|done].
  rewrite take_app_length', drop_app_length' by done.
  rewrite Nil_take, Nat.min_l by lia.
  by destruct (io.ReadFull r _) as [[b k] err].
Qed.

Lemma CustomTimeStampedUUID_shape u r n t res rfc (id : uuid.UUID) e :
  1 <= n <= 16 -> res <> 0 ->
  comb.CustomTimeStampedUUID u r n t res rfc = Return (id, e) ->
  exists b : list Z,
    length b = Z.to_nat (16 - n)
    /\ id = (if e is None then mark rfc else fun x => x)
              (b ++ stamp u n t res).
Proof.
  intros Hn Hres. rewrite CustomTimeStampedUUID_ok by done.
  destruct (io.ReadFull r _) as [[b k] err] eqn:Hr.
  apply ReadFull_length in Hr. rewrite length_replicate in Hr.
  destruct err as [e'|]; cbn [finish]; intros [= <- <-]; by exists b.
Qed.

(** The marker writes bytes 6 and 8 only. *)
Lemma drop_setVersionVariant k (id : uuid.UUID) :
  (8 < k)%nat -> drop k (comb.setVersionVariant id) = drop k id.
Proof.
  intros Hk. unfold comb.setVersionVariant. cbv zeta.
  by rewrite !drop_insert_lt by lia.
Qed.

(** Up to width 7 the time stamp lies behind byte 8: it is in whatever the
    constructor returns. *)
Lemma CustomTimeStampedUUID_stamp_region u r n t res rfc (id : uuid.UUID) e :
  1 <= n <= 7 -> res <> 0 ->
  comb.CustomTimeStampedUUID u r n t res rfc = Return (id, e) ->
  uuid.wf id /\ drop (Z.to_nat (16 - n)) id = stamp u n t res.
Proof.
  intros Hn Hres Hc.
  apply CustomTimeStampedUUID_shape in Hc as (b & Hb & ->); [|lia|done].
  assert (uuid.wf (b ++ stamp u n t res)) as Hwf
    by (unfold uuid.wf; rewrite length_app, stamp_length; lia).
  destruct e as [e|]; [|destruct rfc]; cbn [mark].
  - split; [done|]. by rewrite drop_app_length'.
  - split; [unfold uuid.wf, comb.setVersionVariant;
            by rewrite !length_insert|].
    rewrite drop_setVersionVariant by lia. by rewrite drop_app_length'.
  - split; [done|]. by rewrite drop_app_length'.
Qed.

(** X15.  With a reader that never fails and delivers at least
    [16 - nBytes] bytes, in chunks of any sizes, the constructor returns
    the first [16 - nBytes] bytes delivered, followed by the time stamp,
    with the marker set when asked for; what the reader holds beyond is not
    used. *)
Theorem CustomTimeStampedUUID_enough_data
    (u : float64.t -> Z) (ds : list (list Z)) (n t res : Z) (rfc : bool) :
  1 <= n <= 16 -> res <> 0 -> 16 - n <= len (concat ds) ->
  comb.CustomTimeStampedUUID u (chunks ds) n t res rfc
  = Return (mark rfc (take (Z.to_nat (16 - n)) (concat ds)
                        ++ stamp u n t res),
            None).
Proof.
  intros Hn Hres Hds. rewrite CustomTimeStampedUUID_ok by done.
  rewrite ReadFull_chunks, length_replicate.
  by rewrite decide_True by (unfold len in Hds; lia).
Qed.



(** X18.  An error the constructor returns is never bare: it wraps its
    cause, [errors.Unwrap] gives the cause back, and its text is the name of
    the function, a colon and the text of the cause. *)
Theorem CustomTimeStampedUUID_wraps_errors
    (u : float64.t -> Z) (r : io.Reader) (n t res : Z) (rfc : bool)
    (id : uuid.UUID) (e : io.error) :
  comb.CustomTimeStampedUUID u r n t res rfc = Return (id, Some e) ->
  exists cause,
    e = io.Errorf_s_w comb.fname cause
    /\ io.Unwrap e = Some cause
    /\ io.Error e = "CustomTimeStampedUUID: " +:+ io.Error cause.
Proof.
  rewrite CustomTimeStampedUUID_steps.
  destruct (comb.SetTimeStamp u uuid.Nil n t res) as [[id1 [e1|]]|p];
    cbn [mbind outcome_bind]; [| |done].
  - intros [= <- <-]. by exists e1.
  - destruct (fillRandom r id1 n) as [[id2 [e2|]]|p];
      cbn [mbind outcome_bind finish]; [| |done].
    + intros [= <- <-]. by exists e2.
    + intros [=].
Qed.

(** X19.  Up to width 7, whatever the constructor returns, with or without
    an error, with or without the marker, ends in the time stamp, and
    [ReadCustomTimeStamp] at the same width reads the big-endian value of
    those bytes back. *)
Theorem CustomTimeStampedUUID_reads_back
    (u : float64.t -> Z) (r : io.Reader) (n t res : Z) (rfc : bool)
    (id : uuid.UUID) (e : option io.error) :
  1 <= n <= 7 -> res <> 0 ->
  comb.CustomTimeStampedUUID u r n t res rfc = Return (id, e) ->
  drop (Z.to_nat (16 - n)) id = stamp u n t res
  /\ comb.ReadCustomTimeStamp id n
     = Return (spec.fromBigEndian (stamp u n t res)).
Proof.
  intros Hn Hres Hc.
  apply CustomTimeStampedUUID_stamp_region in Hc as [Hwf Hd]; [|done..].
  split; [done|].
  rewrite ReadCustomTimeStamp_ok; [by rewrite Hd|done|lia|].
  rewrite Hd. apply shifted_bytes.
Qed.

(** ** The default constructor *)

(** X20.  [NewTimeStampedUUID] never panics: whatever the clock and the
    reader do, it returns 16 bytes and possibly an error, and it returns no
    error only when the clock gave none. *)
Theorem NewTimeStampedUUID_never_panics
    (u : float64.t -> Z) (now : Z) (err : option io.error) (r : io.Reader) :
  exists (id : uuid.UUID) (e : option io.error),
    comb.NewTimeStampedUUID u now err r = Return (id, e)
    /\ uuid.wf id
    /\ (e = None -> err = None).
Proof.
  destruct err as [c|]; cbn [comb.NewTimeStampedUUID].
  - by eexists _, _.
  - destruct (comb.CustomTimeStampedUUID u r 6 now
                (Z.quot time.Millisecond 10) true) as [[id e]|p] eqn:Hc.
    + exists id, e. split; [done|]. split; [|done].
      by apply CustomTimeStampedUUID_stamp_region in Hc as [Hwf _].
    + rewrite CustomTimeStampedUUID_ok in Hc by done.
      by destruct (io.ReadFull r _) as [[b k] [e|]].
Qed.

(** X21.  An identifier [NewTimeStampedUUID] returns without an error has
    version nibble 6, variant bits [111], the time stamp of width 6 in its
    last six bytes, and [ReadTimeStamp] reads the big-endian value of those
    six bytes back. *)
Theorem NewTimeStampedUUID_success
    (u : float64.t -> Z) (now : Z) (r : io.Reader) (id : uuid.UUID) :
  comb.NewTimeStampedUUID u now None r = Return (id, None) ->
  Z.shiftr (id !!! 6%nat) 4 = 6
  /\ Z.shiftr (id !!! 8%nat) 5 = 7
  /\ drop 10 id = stamp u 6 now (Z.quot time.Millisecond 10)
  /\ comb.ReadTimeStamp id
     = Return (spec.fromBigEndian
                 (stamp u 6 now (Z.quot time.Millisecond 10))).
Proof.
  cbn [comb.NewTimeStampedUUID]. intros Hc.
  pose proof Hc as Hm.
  apply CustomTimeStampedUUID_marker in Hm as (pre & Hpre & ->).
  apply CustomTimeStampedUUID_wf in Hpre.
  destruct (setVersionVariant_bytes pre Hpre) as (-> & -> & _).
  split; [apply version_nibble|]. split; [apply variant_three_bits|].
  apply CustomTimeStampedUUID_stamp_region in Hc as [Hwf Hd]; [|done..].
  change (Z.to_nat (16 - 6)) with 10%nat in Hd.
  split; [done|]. unfold comb.ReadTimeStamp.
  rewrite ReadCustomTimeStamp_ok; [|done|done|];
    change (Z.to_nat (16 - 6)) with 10%nat; rewrite Hd;
    [done|apply shifted_bytes].
Qed.

(** X22.  [NewTimeStampedUUID] of [main.go] is the one of the older file
    followed by the marker: on an error the two return the same, and
    without one the newer returns the older's identifier with version and
    variant set. *)
Theorem NewTimeStampedUUID_older_file
    (u : float64.t -> Z) (now : Z) (err : option io.error) (r : io.Reader) :
  comb.NewTimeStampedUUID u now err r
  = '(id, e) ← part_000.NewTimeStampedUUID u now err r;
    Return (if e is None then comb.setVersionVariant id else id, e).
Proof.
  destruct err as [c|]; [done|].
  cbn [comb.NewTimeStampedUUID part_000.NewTimeStampedUUID].
  unfold comb.CustomTimeStampedUUID, part_000.CustomTimeStampedUUID.
  change (part_000.SetTimeStamp u uuid.Nil 6 now (Z.quot time.Millisecond 10))
    with (comb.SetTimeStamp u uuid.Nil 6 now (Z.quot time.Millisecond 10)).
  destruct (comb.SetTimeStamp u uuid.Nil 6 now (Z.quot time.Millisecond 10))
    as [[id [e|]]|p]; [done| |done].
  cbn [mbind outcome_bind].
  destruct (slice_to id (int64 (len id - 6))) as [b|p]; [|done].
  cbn [mbind outcome_bind].
  by destruct (io.ReadFull r b) as [[b' k] [e|]].
Qed.

(** ** The marker *)

Lemma lor_land_idem x m c :
  Z.lor (Z.land (Z.lor (Z.land x m) c) m) c = Z.lor (Z.land x m) c.
Proof.
  apply Z.bits_inj'. intros i _.
  rewrite !Z.lor_spec, !Z.land_spec, !Z.lor_spec, !Z.land_spec.
  by destruct (Z.testbit x i), (Z.testbit m i), (Z.testbit c i).
Qed.

(** X23.  Setting version and variant twice is setting them once. *)
Theorem setVersionVariant_idempotent (id : uuid.UUID) :
  uuid.wf id ->
  comb.setVersionVariant (comb.setVersionVariant id)
  = comb.setVersionVariant id.
Proof.
  intros Hid. apply list_eq. intros i.
  assert (uuid.wf (comb.setVersionVariant id)) as Hid'
    by (unfold uuid.wf, comb.setVersionVariant; by rewrite !length_insert).
  assert (uuid.wf (comb.setVersionVariant (comb.setVersionVariant id)))
    as Hid''
    by (unfold uuid.wf, comb.setVersionVariant in *;
        by rewrite !length_insert).
  destruct (setVersionVariant_bytes id Hid) as (H6 & H8 & Hi).
  destruct (setVersionVariant_bytes _ Hid') as (H6' & H8' & Hi').
  unfold uuid.wf in *.
  destruct (decide (i = 6%nat)) as [->|N6];
    [|destruct (decide (i = 8%nat)) as [->|N8]].
  - rewrite !list_lookup_lookup_total_lt by lia. f_equal.
    rewrite H6', H6. apply lor_land_idem.
  - rewrite !list_lookup_lookup_total_lt by lia. f_equal.
    rewrite H8', H8. apply lor_land_idem.
  - by apply Hi'.
Qed.

(** ** The report of the time range *)

Lemma partsPerSecond_range res : int64_range (Z.quot time.Second res).
Proof.
  change time.Second with 1000000000. unfold int64_range.
  destruct (decide (res = 0)) as [->|Hres]; [by vm_compute|].
  assert (Z.abs (1000000000 ÷ res) <= 1000000000); [|lia].
  rewrite <- Z.quot_abs by done.
  rewrite Z.quot_div_nonneg by lia.
  apply Z.div_le_upper_bound; lia.
Qed.

(** The documented configuration, 48 bits of a tenth of a millisecond, on
    an implementation that rounds twice: 871 years and 284 days. *)
Lemma timeRange_48_bits u :
  comb.timeRange u float64.unfused 48 (Z.quot time.Millisecond 10)
  = Return (871, 284, S754_finite false 7376495087791060 (-37)).
Proof. vm_compute. reflexivity. Qed.

(** X24.  [timeRange] panics with an integer division by zero exactly when
    the resolution is zero or longer than a second, where the parts per
    second are zero; for every other resolution and every word size it
    returns, whatever the implementation's conversions and rounding. *)
Theorem timeRange_resolution
    (u : float64.t -> Z)
    (mulAdd : float64.t -> float64.t -> float64.t -> float64.t)
    (wordSize timeResolution : Z) :
  if decide (timeResolution = 0 \/ 1000000000 < Z.abs timeResolution)
  then comb.timeRange u mulAdd wordSize timeResolution
       = Panics IntegerDivideByZero
  else exists years daysRmn seconds,
         comb.timeRange u mulAdd wordSize timeResolution
         = Return (years, daysRmn, seconds).
Proof.
  unfold comb.timeRange, int64_quo, int64_rem.
  destruct (decide (timeResolution = 0 \/ 1000000000 < Z.abs timeResolution))
    as [Hout|Hin].
  - destruct (decide (timeResolution = 0)) as [|Hres]; [done|].
    cbn [mbind outcome_bind].
    assert (Z.quot time.Second timeResolution = 0) as ->.
    { apply Z.quot_small_iff; [done|].
      change time.Second with 1000000000. lia. }
    done.
  - destruct (decide (timeResolution = 0)) as [|Hres]; [lia|].
    cbn [mbind outcome_bind].
    rewrite (int64_id (Z.quot time.Second timeResolution))
      by apply partsPerSecond_range.
    destruct (decide (Z.quot time.Second timeResolution = 0)) as [H0|_].
    { apply Z.quot_small_iff in H0; [|done].
      change time.Second with 1000000000 in H0. lia. }
    cbn [mbind outcome_bind]. by eexists _, _, _.
Qed.

(** ** The statements above at concrete inputs *)

(** Widths 17, 0, -1 and 9 at a tenth of a millisecond, and width 6 at a
    zero resolution. *)
Lemma SetTimeStamp_width_witness :
  uuid.wf uuid.Nil
  /\ int64_range 17 /\ int64_range 0 /\ int64_range (-1) /\ int64_range 9
  /\ int64_range 6
  /\ comb.SetTimeStamp float64.saturating uuid.Nil 6 256000 0
     = Panics IntegerDivideByZero
  /\ comb.CustomTimeStampedUUID float64.saturating [] 6 256000 0 true
     = Panics IntegerDivideByZero
  /\ comb.SetTimeStamp float64.saturating uuid.Nil 17 256000 100000
     = Return (uuid.Nil, Some (io.New "to many bytes to format"))
  /\ comb.CustomTimeStampedUUID float64.saturating [] 17 256000 100000 true
     = Return (uuid.Nil,
               Some (io.Wrapped
                       "CustomTimeStampedUUID: to many bytes to format"
                       (io.New "to many bytes to format")))
  /\ comb.SetTimeStamp float64.saturating uuid.Nil 0 256000 100000
     = Panics IndexOutOfRange
  /\ comb.CustomTimeStampedUUID float64.saturating [] 0 256000 100000 true
     = Panics IndexOutOfRange
  /\ comb.SetTimeStamp float64.saturating uuid.Nil (-1) 256000 100000
     = Panics SliceBoundsOutOfRange
  /\ comb.SetTimeStamp float64.saturating uuid.Nil 9 256000 100000
     = Return (take (Z.to_nat (16 - 9)) uuid.Nil
                 ++ stamp float64.saturating 9 256000 100000,
               None)
  /\ failed (comb.SetTimeStamp float64.saturating uuid.Nil 17 256000 100000).
Proof.
  assert (uuid.wf uuid.Nil) as Hwf by reflexivity.
  assert (int64_range 17) as H17 by (unfold int64_range; lia).
  assert (int64_range 0) as H0 by (unfold int64_range; lia).
  assert (int64_range (-1)) as Hm by (unfold int64_range; lia).
  assert (int64_range 9) as H9 by (unfold int64_range; lia).
  assert (int64_range 6) as H6 by (unfold int64_range; lia).
  assert (100000 <> 0) as Hres by lia.
  repeat (split; [assumption|]).
  destruct (SetTimeStamp_width float64.saturating uuid.Nil [] 6 256000 0
              true Hwf H6) as (Z6 & _).
  destruct (SetTimeStamp_width float64.saturating uuid.Nil [] 17 256000
              100000 true Hwf H17) as (_ & G17 & _ & _ & F17).
  destruct (SetTimeStamp_width float64.saturating uuid.Nil [] 0 256000
              100000 true Hwf H0) as (_ & _ & L0 & _).
  destruct (SetTimeStamp_width float64.saturating uuid.Nil [] (-1) 256000
              100000 true Hwf Hm) as (_ & _ & Lm & _).
  destruct (SetTimeStamp_width float64.saturating uuid.Nil [] 9 256000
              100000 true Hwf H9) as (_ & _ & _ & I9 & _).
  split; [exact (proj1 (Z6 eq_refl))|].
  split; [exact (proj2 (Z6 eq_refl))|].
  split; [exact (proj1 (G17 Hres ltac:(lia)))|].
  split; [exact (proj2 (G17 Hres ltac:(lia)))|].
  split; [exact (proj1 (L0 Hres ltac:(lia)))|].
  split; [exact (proj2 (L0 Hres ltac:(lia)))|].
  split; [exact (proj1 (Lm Hres ltac:(lia)))|].
  split; [exact (I9 Hres ltac:(lia))|].
  exact (proj1 (F17 ltac:(lia))).
Defined.

(** Ten random bytes of zero, width 6. *)
Lemma marker_bits_witness :
  comb.CustomTimeStampedUUID float64.saturating [(replicate 10 0, None)]
    6 256000 100000 true
  = Return ([0; 0; 0; 0; 0; 0; 96; 0; 224; 0; 0; 0; 1; 16; 64; 128], None)
  /\ exists pre : uuid.UUID,
       comb.CustomTimeStampedUUID float64.saturating
         [(replicate 10 0, None)] 6 256000 100000 false
       = Return (pre, None)
       /\ Z.shiftr 96 4 = 6
       /\ Z.shiftr 224 6 = 3
       /\ Z.shiftr 224 5 = 7
       /\ Z.land 96 0x0f = Z.land (pre !!! 6%nat) 0x0f
       /\ Z.land 224 0x1f = Z.land (pre !!! 8%nat) 0x1f
       /\ forall i : nat, i <> 6%nat -> i <> 8%nat ->
            [0; 0; 0; 0; 0; 0; 96; 0; 224; 0; 0; 0; 1; 16; 64; 128] !! i
            = pre !! i.
Proof.
  assert (comb.CustomTimeStampedUUID float64.saturating
            [(replicate 10 0, None)] 6 256000 100000 true
          = Return ([0; 0; 0; 0; 0; 0; 96; 0; 224; 0; 0; 0; 1; 16; 64; 128],
                    None)) as H by reflexivity.
  split; [exact H|].
  exact (marker_bits float64.saturating [(replicate 10 0, None)]
           6 256000 100000 _ H).
Defined.

(** A reader of three bytes, width 6. *)
Lemma SetTimeStamp_frame_witness :
  uuid.wf uuid.Nil /\ 1 <= 6 <= 16 /\ 100000 <> 0
  /\ exists id1 : uuid.UUID,
       comb.SetTimeStamp float64.saturating uuid.Nil 6 256000 100000
       = Return (id1, None)
       /\ uuid.wf id1
       /\ take (Z.to_nat (16 - 6)) id1 = take (Z.to_nat (16 - 6)) uuid.Nil
       /\ exists (id2 id3 : uuid.UUID) (e : option io.error),
            fillRandom [([1; 2; 3], None)] uuid.Nil 6 = Return (id2, e)
            /\ comb.SetTimeStamp float64.saturating id2 6 256000 100000
               = Return (id3, None)
            /\ fillRandom [([1; 2; 3], None)] id1 6 = Return (id3, e).
Proof.
  split; [reflexivity|]. split; [lia|]. split; [lia|].
  apply (SetTimeStamp_frame float64.saturating [([1; 2; 3], None)] uuid.Nil
           6 256000 100000); [reflexivity|lia|lia].
Defined.

(** Nine bytes asked of a slice of eight; width 6 of an identifier. *)
Lemma bytesToUint64_width_witness :
  (int64_range 9 /\ 8 < 9 \/ 8 < len [1; 2; 3; 4; 5; 6; 7; 8])
  /\ uuid.wf uuid.Nil /\ int64_range 6 /\ 6 <= 8
  /\ panics (comb.bytesToUint64 [1; 2; 3; 4; 5; 6; 7; 8] 9)
  /\ (forall v, comb.bytesToUint64 [1; 2; 3; 4; 5; 6; 7; 8] 9 <> Return v)
  /\ comb.ReadCustomTimeStamp uuid.Nil 6 <> Panics tooLarge
  /\ (1 <= 6 -> exists v, comb.ReadCustomTimeStamp uuid.Nil 6 = Return v).
Proof.
  assert (int64_range 9 /\ 8 < 9 \/ 8 < len [1; 2; 3; 4; 5; 6; 7; 8]) as H1
    by (left; unfold int64_range; lia).
  assert (int64_range 6) as H2 by (unfold int64_range; lia).
  split; [exact H1|]. split; [reflexivity|]. split; [exact H2|].
  split; [lia|].
  apply (bytesToUint64_width [1; 2; 3; 4; 5; 6; 7; 8] 9 uuid.Nil 6 H1);
    [reflexivity|exact H2|lia].
Defined.

(** ** The further statements at concrete inputs *)

(** Two bytes written into a slice of three. *)
Lemma uint64ToBytes_writes_witness :
  1 <= 2 <= 63 /\ 2 <= len [7; 7; 7]
  /\ exists b',
       comb.uint64ToBytes [7; 7; 7] 2 0x0102 = Return b'
       /\ length b' = length [7; 7; 7]
       /\ take (Z.to_nat 2) b' = shifted 2 0x0102
       /\ drop (Z.to_nat 2) b' = drop (Z.to_nat 2) [7; 7; 7]
       /\ Forall is_byte (take (Z.to_nat 2) b').
Proof.
  assert (2 <= len [7; 7; 7]) as Hb by (unfold len; simpl; lia).
  split; [lia|]. split; [exact Hb|].
  apply (uint64ToBytes_writes [7; 7; 7] 2 0x0102); [lia|exact Hb].
Defined.

(** Width 3 asked of a slice of two. *)
Lemma uint64ToBytes_bounds_witness :
  int64_range 3 /\ int64_range (len [7; 7]) /\ (3 < 1 \/ len [7; 7] < 3)
  /\ comb.uint64ToBytes [7; 7] 3 5 = Panics IndexOutOfRange
  /\ comb.uint64ToBytes_mem [7; 7] 3 5 = ([7; 7], Some IndexOutOfRange).
Proof.
  assert (int64_range 3) as H1 by (unfold int64_range; lia).
  assert (int64_range (len [7; 7])) as H2
    by (unfold int64_range, len; simpl; lia).
  assert (3 < 1 \/ len [7; 7] < 3) as H3 by (right; unfold len; simpl; lia).
  split; [exact H1|]. split; [exact H2|]. split; [exact H3|].
  exact (uint64ToBytes_bounds [7; 7] 3 5 H1 H2 H3).
Defined.

(** Width 8 and a value of 64 ones. *)
Lemma uint64ToBytes_wide_witness :
  6 <= 8 <= 63 /\ 8 <= len (replicate 8 1)
  /\ comb.uint64ToBytes (replicate 8 1) 8 0xffffffffffffffff
     = Return (replicate (Z.to_nat (8 - 6)) 0 ++ shifted 6 0xffffffffffffffff
                 ++ drop (Z.to_nat 8) (replicate 8 1)).
Proof.
  assert (8 <= len (replicate 8 1)) as Hb by (unfold len; simpl; lia).
  split; [lia|]. split; [exact Hb|].
  apply (uint64ToBytes_wide (replicate 8 1) 8 0xffffffffffffffff);
    [lia|exact Hb].
Defined.

(** Two values that differ in bit 0 and in bit 24. *)
Lemma uint64ToBytes_stored_bits_witness :
  1 <= 2 <= 63 /\ 2 <= len [0; 0]
  /\ Z.land 0x0102 storedBits = Z.land 0x1000103 storedBits
  /\ comb.uint64ToBytes [0; 0] 2 0x0102
     = comb.uint64ToBytes [0; 0] 2 0x1000103.
Proof.
  assert (2 <= len [0; 0]) as Hb by (unfold len; simpl; lia).
  split; [lia|]. split; [exact Hb|]. split; [reflexivity|].
  apply (uint64ToBytes_stored_bits [0; 0] 2 0x0102 0x1000103);
    [lia|exact Hb|reflexivity].
Defined.

(** Two bytes read of a slice of three. *)
Lemma bytesToUint64_decodes_witness :
  1 <= 2 <= len [1; 2; 3] /\ len [1; 2; 3] <= 8 /\ Forall is_byte [1; 2; 3]
  /\ comb.bytesToUint64 [1; 2; 3] 2
     = Return (spec.fromBigEndian (take (Z.to_nat 2) [1; 2; 3]))
  /\ 0 <= spec.fromBigEndian (take (Z.to_nat 2) [1; 2; 3]) < 2 ^ (8 * 2).
Proof.
  assert (1 <= 2 <= len [1; 2; 3]) as H1 by (unfold len; simpl; lia).
  assert (len [1; 2; 3] <= 8) as H2 by (unfold len; simpl; lia).
  assert (Forall is_byte [1; 2; 3]) as H3
    by (repeat (apply Forall_cons_2; [unfold is_byte; lia|]);
        apply Forall_nil_2).
  split; [exact H1|]. split; [exact H2|]. split; [exact H3|].
  exact (bytesToUint64_decodes [1; 2; 3] 2 H1 H2 H3).
Defined.

(** Six bytes asked of a slice of nine. *)
Lemma bytesToUint64_refuses_witness :
  int64_range 6 /\ int64_range (len (replicate 9 0))
  /\ ~ (1 <= 6 <= len (replicate 9 0) /\ len (replicate 9 0) <= 8)
  /\ comb.bytesToUint64 (replicate 9 0) 6 = Panics tooLarge.
Proof.
  assert (int64_range 6) as H1 by (unfold int64_range; lia).
  assert (int64_range (len (replicate 9 0))) as H2
    by (unfold int64_range, len; simpl; lia).
  assert (~ (1 <= 6 <= len (replicate 9 0) /\ len (replicate 9 0) <= 8))
    as H3 by (unfold len; simpl; lia).
  split; [exact H1|]. split; [exact H2|]. split; [exact H3|].
  exact (bytesToUint64_refuses (replicate 9 0) 6 H1 H2 H3).
Defined.

(** A value of seven bytes at the six of the helper. *)
Lemma putBytesSafe_roundtrip_witness :
  len (replicate 6 0) = 6
  /\ comb_test.putBytesSafe (replicate 6 0) 6 0x07010203040506
     = Return (spec.bigEndian 6 0x07010203040506)
  /\ (comb_test.putBytesSafe (replicate 6 0) 6 0x07010203040506
        ≫= fun b' => comb.bytesToUint64 b' 6)
     = Return (0x07010203040506 mod 2 ^ 48).
Proof.
  assert (len (replicate 6 0) = 6) as Hb by reflexivity.
  split; [exact Hb|].
  exact (putBytesSafe_roundtrip (replicate 6 0) 6 0x07010203040506 Hb).
Defined.

(** Six bytes other than [ff]. *)
Lemma fillUint64Safe_decodes_witness :
  len [1; 2; 3; 4; 5; 6] = 6 /\ Forall is_byte [1; 2; 3; 4; 5; 6]
  /\ comb_test.fillUint64Safe ([0; 0] ++ [1; 2; 3; 4; 5; 6])
     = Return (spec.fromBigEndian [1; 2; 3; 4; 5; 6])
  /\ comb.bytesToUint64 [1; 2; 3; 4; 5; 6] 6
     = Return (spec.fromBigEndian [1; 2; 3; 4; 5; 6]).
Proof.
  assert (len [1; 2; 3; 4; 5; 6] = 6) as H1 by reflexivity.
  assert (Forall is_byte [1; 2; 3; 4; 5; 6]) as H2
    by (repeat (apply Forall_cons_2; [unfold is_byte; lia|]);
        apply Forall_nil_2).
  split; [exact H1|]. split; [exact H2|].
  exact (fillUint64Safe_decodes [1; 2; 3; 4; 5; 6] H1 H2).
Defined.

(** An identifier whose first ten entries are no bytes at all. *)
Lemma ReadCustomTimeStamp_value_witness :
  uuid.wf (replicate 10 1000 ++ [1; 2; 3; 4; 5; 6]) /\ 1 <= 6 <= 8
  /\ Forall is_byte
       (drop (Z.to_nat (16 - 6)) (replicate 10 1000 ++ [1; 2; 3; 4; 5; 6]))
  /\ comb.ReadCustomTimeStamp (replicate 10 1000 ++ [1; 2; 3; 4; 5; 6]) 6
     = Return (spec.fromBigEndian
                 (drop (Z.to_nat (16 - 6))
                    (replicate 10 1000 ++ [1; 2; 3; 4; 5; 6])))
  /\ 0 <= spec.fromBigEndian
            (drop (Z.to_nat (16 - 6))
               (replicate 10 1000 ++ [1; 2; 3; 4; 5; 6]))
       < 2 ^ (8 * 6).
Proof.
  assert (uuid.wf (replicate 10 1000 ++ [1; 2; 3; 4; 5; 6])) as H1
    by reflexivity.
  assert (1 <= 6 <= 8) as H2 by lia.
  assert (Forall is_byte [1; 2; 3; 4; 5; 6]) as H3
    by (repeat (apply Forall_cons_2; [unfold is_byte; lia|]);
        apply Forall_nil_2).
  split; [exact H1|]. split; [exact H2|]. split; [exact H3|].
  exact (ReadCustomTimeStamp_value
           (replicate 10 1000 ++ [1; 2; 3; 4; 5; 6]) 6 H1 H2 H3).
Defined.

(** Width 9 of an identifier. *)
Lemma ReadCustomTimeStamp_refuses_witness :
  uuid.wf uuid.Nil /\ int64_range 9 /\ (9 < 1 \/ 8 < 9)
  /\ comb.ReadCustomTimeStamp uuid.Nil 9 = Panics tooLarge.
Proof.
  assert (uuid.wf uuid.Nil) as H1 by reflexivity.
  assert (int64_range 9) as H2 by (unfold int64_range; lia).
  assert (9 < 1 \/ 8 < 9) as H3 by lia.
  split; [exact H1|]. split; [exact H2|]. split; [exact H3|].
  exact (ReadCustomTimeStamp_refuses uuid.Nil 9 H1 H2 H3).
Defined.

(** Two times at width 6, a tenth of a millisecond. *)
Lemma SetTimeStamp_overwrites_witness :
  uuid.wf uuid.Nil /\ 1 <= 6 <= 16 /\ 100000 <> 0
  /\ ('(id1, _) ← comb.SetTimeStamp float64.saturating uuid.Nil 6
                    256000 100000;
      comb.SetTimeStamp float64.saturating id1 6 512000 100000)
     = comb.SetTimeStamp float64.saturating uuid.Nil 6 512000 100000.
Proof.
  assert (uuid.wf uuid.Nil) as H1 by reflexivity.
  assert (1 <= 6 <= 16) as H2 by lia.
  assert (100000 <> 0) as H3 by lia.
  split; [exact H1|]. split; [exact H2|]. split; [exact H3|].
  exact (SetTimeStamp_overwrites float64.saturating uuid.Nil 6
           256000 100000 512000 100000 H1 H2 H3 H3).
Defined.

(** A time of 256000 ticks at width 6. *)
Lemma SetTimeStamp_default_resolution_witness :
  uuid.wf uuid.Nil /\ 1 <= 6 <= 8 /\ 0 <= 256000 < 2 ^ 53
  /\ comb.SetTimeStamp float64.saturating uuid.Nil 6 256000
       (Z.quot time.Millisecond 10)
     = Return (take (Z.to_nat (16 - 6)) uuid.Nil
                 ++ shifted 6 (((2 * 256000 + 1000) / 2000) mod 2 ^ (8 * 6)),
               None).
Proof.
  assert (uuid.wf uuid.Nil) as H1 by reflexivity.
  assert (1 <= 6 <= 8) as H2 by lia.
  assert (0 <= 256000 < 2 ^ 53) as H3 by lia.
  split; [exact H1|]. split; [exact H2|]. split; [exact H3|].
  exact (SetTimeStamp_default_resolution float64.saturating uuid.Nil 6
           256000 H1 H2 H3).
Defined.

(** A resolution of one second. *)
Lemma SetTimeStamp_coarse_resolution_witness :
  uuid.wf uuid.Nil /\ 1 <= 6 <= 16 /\ 0 <= 256000 < 2 ^ 53
  /\ 100000000 < 1000000000
  /\ comb.SetTimeStamp float64.saturating uuid.Nil 6 256000 1000000000
     = Return (take (Z.to_nat (16 - 6)) uuid.Nil
                 ++ shifted 6
                      (Z.land
                         (uint64 (float64.saturating (S754_infinity false)))
                         (comb.timeMask 6)),
               None).
Proof.
  assert (uuid.wf uuid.Nil) as H1 by reflexivity.
  assert (1 <= 6 <= 16) as H2 by lia.
  assert (0 <= 256000 < 2 ^ 53) as H3 by lia.
  assert (100000000 < 1000000000) as H4 by lia.
  split; [exact H1|]. split; [exact H2|]. split; [exact H3|].
  split; [exact H4|].
  exact (SetTimeStamp_coarse_resolution float64.saturating uuid.Nil 6
           256000 1000000000 H1 H2 H3 H4).
Defined.


(** Eleven bytes in two chunks, of which ten are used. *)
Lemma CustomTimeStampedUUID_enough_data_witness :
  1 <= 6 <= 16 /\ 100000 <> 0
  /\ 16 - 6 <= len (concat [[1; 2; 3]; [4; 5; 6; 7; 8; 9; 10; 11]])
  /\ comb.CustomTimeStampedUUID float64.saturating
       (chunks [[1; 2; 3]; [4; 5; 6; 7; 8; 9; 10; 11]]) 6 256000 100000 true
     = Return (mark true
                 (take (Z.to_nat (16 - 6))
                    (concat [[1; 2; 3]; [4; 5; 6; 7; 8; 9; 10; 11]])
                  ++ stamp float64.saturating 6 256000 100000),
               None).
Proof.
  assert (1 <= 6 <= 16) as H1 by lia.
  assert (100000 <> 0) as H2 by lia.
  assert (16 - 6 <= len (concat [[1; 2; 3]; [4; 5; 6; 7; 8; 9; 10; 11]]))
    as H3 by (unfold len; simpl; lia).
  split; [exact H1|]. split; [exact H2|]. split; [exact H3|].
  exact (CustomTimeStampedUUID_enough_data float64.saturating
           [[1; 2; 3]; [4; 5; 6; 7; 8; 9; 10; 11]] 6 256000 100000 true
           H1 H2 H3).
Defined.



(** A reader that fails with an error of its own after three bytes. *)
Lemma CustomTimeStampedUUID_wraps_errors_witness :
  comb.CustomTimeStampedUUID float64.saturating
    [([1; 2; 3], Some (io.New "boom"))] 6 256000 100000 true
  = Return ([1; 2; 3; 0; 0; 0; 0; 0; 0; 0; 0; 0; 1; 16; 64; 128],
            Some (io.Wrapped "CustomTimeStampedUUID: boom" (io.New "boom")))
  /\ exists cause,
       io.Wrapped "CustomTimeStampedUUID: boom" (io.New "boom")
       = io.Errorf_s_w comb.fname cause
       /\ io.Unwrap (io.Wrapped "CustomTimeStampedUUID: boom" (io.New "boom"))
          = Some cause
       /\ io.Error (io.Wrapped "CustomTimeStampedUUID: boom" (io.New "boom"))
          = "CustomTimeStampedUUID: " +:+ io.Error cause.
Proof.
  assert (comb.CustomTimeStampedUUID float64.saturating
            [([1; 2; 3], Some (io.New "boom"))] 6 256000 100000 true
          = Return ([1; 2; 3; 0; 0; 0; 0; 0; 0; 0; 0; 0; 1; 16; 64; 128],
                    Some (io.Wrapped "CustomTimeStampedUUID: boom"
                                     (io.New "boom")))) as H1
    by (vm_compute; reflexivity).
  split; [exact H1|].
  exact (CustomTimeStampedUUID_wraps_errors float64.saturating
           [([1; 2; 3], Some (io.New "boom"))] 6 256000 100000 true _ _ H1).
Defined.

(** Ten zero bytes from the reader, width 6, the marker set. *)
Lemma CustomTimeStampedUUID_reads_back_witness :
  1 <= 6 <= 7 /\ 100000 <> 0
  /\ comb.CustomTimeStampedUUID float64.saturating [(replicate 10 0, None)]
       6 256000 100000 true
     = Return ([0; 0; 0; 0; 0; 0; 96; 0; 224; 0; 0; 0; 1; 16; 64; 128], None)
  /\ drop (Z.to_nat (16 - 6))
       [0; 0; 0; 0; 0; 0; 96; 0; 224; 0; 0; 0; 1; 16; 64; 128]
     = stamp float64.saturating 6 256000 100000
  /\ comb.ReadCustomTimeStamp
       [0; 0; 0; 0; 0; 0; 96; 0; 224; 0; 0; 0; 1; 16; 64; 128] 6
     = Return (spec.fromBigEndian (stamp float64.saturating 6 256000 100000)).
Proof.
  assert (1 <= 6 <= 7) as H1 by lia.
  assert (100000 <> 0) as H2 by lia.
  assert (comb.CustomTimeStampedUUID float64.saturating
            [(replicate 10 0, None)] 6 256000 100000 true
          = Return ([0; 0; 0; 0; 0; 0; 96; 0; 224; 0; 0; 0; 1; 16; 64; 128],
                    None)) as H3
    by (vm_compute; reflexivity).
  split; [exact H1|]. split; [exact H2|]. split; [exact H3|].
  exact (CustomTimeStampedUUID_reads_back float64.saturating
           [(replicate 10 0, None)] 6 256000 100000 true _ _ H1 H2 H3).
Defined.

(** A clock at 256000 ticks and ten zero bytes from the reader. *)
Lemma NewTimeStampedUUID_success_witness :
  comb.NewTimeStampedUUID float64.saturating 256000 None
    [(replicate 10 0, None)]
  = Return ([0; 0; 0; 0; 0; 0; 96; 0; 224; 0; 0; 0; 1; 16; 64; 128], None)
  /\ Z.shiftr
       ([0; 0; 0; 0; 0; 0; 96; 0; 224; 0; 0; 0; 1; 16; 64; 128] !!! 6%nat) 4
     = 6
  /\ Z.shiftr
       ([0; 0; 0; 0; 0; 0; 96; 0; 224; 0; 0; 0; 1; 16; 64; 128] !!! 8%nat) 5
     = 7
  /\ drop 10 [0; 0; 0; 0; 0; 0; 96; 0; 224; 0; 0; 0; 1; 16; 64; 128]
     = stamp float64.saturating 6 256000 (Z.quot time.Millisecond 10)
  /\ comb.ReadTimeStamp
       [0; 0; 0; 0; 0; 0; 96; 0; 224; 0; 0; 0; 1; 16; 64; 128]
     = Return (spec.fromBigEndian
                 (stamp float64.saturating 6 256000
                    (Z.quot time.Millisecond 10))).
Proof.
  assert (comb.NewTimeStampedUUID float64.saturating 256000 None
            [(replicate 10 0, None)]
          = Return ([0; 0; 0; 0; 0; 0; 96; 0; 224; 0; 0; 0; 1; 16; 64; 128],
                    None)) as H1
    by (vm_compute; reflexivity).
  split; [exact H1|].
  exact (NewTimeStampedUUID_success float64.saturating 256000
           [(replicate 10 0, None)] _ H1).
Defined.

(** The zero identifier. *)
Lemma setVersionVariant_idempotent_witness :
  uuid.wf uuid.Nil
  /\ comb.setVersionVariant (comb.setVersionVariant uuid.Nil)
     = comb.setVersionVariant uuid.Nil.
Proof.
  assert (uuid.wf uuid.Nil) as H1 by reflexivity.
  split; [exact H1|].
  exact (setVersionVariant_idempotent uuid.Nil H1).
Defined.
